(** * Crossword synchronisation server (websocketServer.py)

    A shallow embedding of the Flask-SocketIO handlers of
    [websocketServer.py] and of the Redis commands they issue, followed by
    the properties of the handlers.

    - Redis is modelled as a finite map from key names to values that are
      byte strings, lists or hashes; each command follows the server's
      documented behaviour, error replies included.
    - A handler is a computation over the Redis database that either
      returns the list of messages it emits or raises; what it wrote
      before raising stays written.
    - The Socket.IO server is modelled by the list of connected session
      ids and by the addressing rules of [emit] and [socketio.emit]. *)

From Stdlib Require Import ZArith String DecimalString DecimalPos DecimalZ.
From stdpp Require Import gmap strings list fin_maps.

Open Scope Z_scope.

(** ** Python values and exceptions *)

(** The values a decoded JSON object can hold under one of its keys.  The
    handlers never look inside arrays or objects, so these carry no
    contents; a float carries its [repr]. *)
Inductive pyval :=
| PyNone
| PyBool (b : bool)
| PyInt (z : Z)
| PyFloat (repr : string)
| PyStr (s : string)
| PyList
| PyDict.

Global Instance pyval_eq_dec : EqDecision pyval.
Proof. solve_decision. Defined.

(** Error replies of the Redis server. *)
Inductive redis_reply_error :=
| WrongType          (* WRONGTYPE Operation against a key holding the wrong kind of value *)
| NoSuchKey          (* ERR no such key *)
| IndexOutOfRange    (* ERR index out of range *)
| NotAnInteger       (* ERR value is not an integer or out of range *)
| WrongArity.        (* ERR wrong number of arguments *)

Inductive exception :=
| BadMessage                               (* json.loads raised, or the text is not a JSON object *)
| KeyError (k : string)
| DataError                                (* redis-py cannot encode the argument *)
| ResponseError (e : redis_reply_error).

Inductive result (A : Type) :=
| Ok (a : A)
| Raise (e : exception).
Arguments Ok {A} a.
Arguments Raise {A} e.

Global Instance redis_reply_error_eq_dec : EqDecision redis_reply_error.
Proof. solve_decision. Defined.
Global Instance exception_eq_dec : EqDecision exception.
Proof. solve_decision. Defined.

(** [str(z)] for a Python int. *)
Definition py_str (z : Z) : string := NilZero.string_of_int (Z.to_int z).

(** The range of a signed 64-bit integer. *)
Definition int64 (z : Z) : bool := (- 2 ^ 63 <=? z) && (z <? 2 ^ 63).

(** ** Redis *)

(** The value under a key: a byte string, a list, or a hash.  A hash is
    kept as its fields in the order HKEYS and HVALS enumerate them, the
    order of insertion of a small hash. *)
Inductive rvalue :=
| RString (s : string)
| RList (l : list string)
| RHash (h : list (string * string)).

(** A computation against the database: the database after it, and the
    value returned or the exception raised. *)
Definition M (A : Type) : Type := gmap string rvalue → gmap string rvalue * result A.

Definition ret {A} (a : A) : M A := λ db, (db, Ok a).
Definition raise {A} (e : exception) : M A := λ db, (db, Raise e).
Definition bind {A B} (m : M A) (k : A → M B) : M B :=
  λ db, match m db with
        | (db', Ok a) => k a db'
        | (db', Raise e) => (db', Raise e)
        end.
Definition lift {A} (r : result A) : M A := λ db, (db, r).

Declare Scope redis_scope.
Delimit Scope redis_scope with redis.
Notation "x <- m ;; k" := (bind m (λ x, k))
  (at level 100, m at next level, k at level 200, right associativity) : redis_scope.
Notation "m ;;; k" := (bind m (λ _, k))
  (at level 100, k at level 200, right associativity) : redis_scope.
Open Scope redis_scope.

Module Redis.

(** How redis-py (3.x) turns a command argument into bytes. *)
Definition encode (v : pyval) : result string :=
  match v with
  | PyStr s => Ok s
  | PyInt z => Ok (py_str z)
  | PyFloat repr => Ok repr
  | PyNone | PyBool _ | PyList | PyDict => Raise DataError
  end.

Fixpoint encode_all (vs : list pyval) : result (list string) :=
  match vs with
  | [] => Ok []
  | v :: vs' =>
      match encode v with
      | Ok b => match encode_all vs' with
                | Ok bs => Ok (b :: bs)
                | Raise e => Raise e
                end
      | Raise e => Raise e
      end
  end.

(** The server's [string2ll]: the canonical decimal text of a signed
    64-bit integer, and nothing else. *)
Definition string2ll (s : string) : option Z :=
  match NilZero.int_of_string s with
  | Some d =>
      let z := Z.of_int d in
      if String.eqb (py_str z) s && int64 z then Some z else None
  | None => None
  end.

(** Field update of a hash: an existing field is overwritten where it
    stands, a new field goes last. *)
Fixpoint hash_set (f v : string) (h : list (string * string)) : list (string * string) :=
  match h with
  | [] => [(f, v)]
  | (f', v') :: h' =>
      if String.eqb f' f then (f, v) :: h' else (f', v') :: hash_set f v h'
  end.

Definition hash_del (f : string) (h : list (string * string)) : list (string * string) :=
  filter (λ fv, fv.1 ≠ f) h.

(** FLUSHDB *)
Definition flushdb : M unit := λ _, (∅, Ok tt).

(** SET key value *)
Definition set (name : string) (value : pyval) : M unit :=
  b <- lift (encode value) ;;
  λ db, (<[name := RString b]> db, Ok tt).

(** RPUSH key value [value ...] *)
Definition rpush (name : string) (values : list pyval) : M unit :=
  bs <- lift (encode_all values) ;;
  λ db,
    match bs with
    | [] => (db, Raise (ResponseError WrongArity))
    | _ =>
        match db !! name with
        | None => (<[name := RList bs]> db, Ok tt)
        | Some (RList l) => (<[name := RList (l ++ bs)]> db, Ok tt)
        | Some _ => (db, Raise (ResponseError WrongType))
        end
    end.

(** LPUSH key value [value ...]: the values are pushed at the head one
    after the other, so the last one given ends up first. *)
Definition lpush (name : string) (values : list pyval) : M unit :=
  bs <- lift (encode_all values) ;;
  λ db,
    match bs with
    | [] => (db, Raise (ResponseError WrongArity))
    | _ =>
        match db !! name with
        | None => (<[name := RList (rev bs)]> db, Ok tt)
        | Some (RList l) => (<[name := RList (rev bs ++ l)]> db, Ok tt)
        | Some _ => (db, Raise (ResponseError WrongType))
        end
    end.

(** LSET key index value: a negative index counts from the tail. *)
Definition lset (name : string) (index value : pyval) : M unit :=
  i <- lift (encode index) ;;
  b <- lift (encode value) ;;
  λ db,
    match db !! name with
    | None => (db, Raise (ResponseError NoSuchKey))
    | Some (RList l) =>
        match string2ll i with
        | None => (db, Raise (ResponseError NotAnInteger))
        | Some z =>
            let len := Z.of_nat (length l) in
            let pos := if z <? 0 then z + len else z in
            if (0 <=? pos) && (pos <? len)
            then (<[name := RList (<[Z.to_nat pos := b]> l)]> db, Ok tt)
            else (db, Raise (ResponseError IndexOutOfRange))
        end
    | Some _ => (db, Raise (ResponseError WrongType))
    end.

(** LRANGE key 0 -1 *)
Definition lrange_all (name : string) : M (list string) :=
  λ db,
    match db !! name with
    | None => (db, Ok [])
    | Some (RList l) => (db, Ok l)
    | Some _ => (db, Raise (ResponseError WrongType))
    end.

(** HSET key field value *)
Definition hset (name key : string) (value : pyval) : M unit :=
  b <- lift (encode value) ;;
  λ db,
    match db !! name with
    | None => (<[name := RHash [(key, b)]]> db, Ok tt)
    | Some (RHash h) => (<[name := RHash (hash_set key b h)]> db, Ok tt)
    | Some _ => (db, Raise (ResponseError WrongType))
    end.

(** HDEL key field: a hash left without fields is removed. *)
Definition hdel (name key : string) : M unit :=
  λ db,
    match db !! name with
    | None => (db, Ok tt)
    | Some (RHash h) =>
        match hash_del key h with
        | [] => (delete name db, Ok tt)
        | h' => (<[name := RHash h']> db, Ok tt)
        end
    | Some _ => (db, Raise (ResponseError WrongType))
    end.

(** HVALS key *)
Definition hvals (name : string) : M (list string) :=
  λ db,
    match db !! name with
    | None => (db, Ok [])
    | Some (RHash h) => (db, Ok h.*2)
    | Some _ => (db, Raise (ResponseError WrongType))
    end.

(** HKEYS key *)
Definition hkeys (name : string) : M (list string) :=
  λ db,
    match db !! name with
    | None => (db, Ok [])
    | Some (RHash h) => (db, Ok h.*1)
    | Some _ => (db, Raise (ResponseError WrongType))
    end.

(** GET key: the value of a string key, nothing for a key that does not
    exist. *)
Definition get (name : string) : M (option string) :=
  λ db,
    match db !! name with
    | None => (db, Ok None)
    | Some (RString s) => (db, Ok (Some s))
    | Some _ => (db, Raise (ResponseError WrongType))
    end.

End Redis.

(** ** JSON *)

(** [json.loads] and [json.dumps] are taken as given.  [json_loads]
    answers [None] when the text does not decode to a JSON object: either
    [json.loads] raises, or the first subscript [req['...']] does.
    [json_dumps] is applied to the two dictionaries the handlers build,
    both of which map a few names to lists of strings. *)
Class JsonCodec := {
  json_loads : string → option (gmap string pyval);
  json_dumps : list (string * list string) → string
}.

(** [req[k]] *)
Definition getitem (req : gmap string pyval) (k : string) : result pyval :=
  match req !! k with
  | Some v => Ok v
  | None => Raise (KeyError k)
  end.

(** [value == "text"] for a decoded JSON value. *)
Definition py_eq_str (v : pyval) (s : string) : bool :=
  match v with
  | PyStr s' => String.eqb s' s
  | _ => false
  end.

(** ** Socket.IO messages *)

(** A message handed to the Socket.IO server: the event, its payload, the
    room it is addressed to (every connected client when [None]) and the
    session left out of the delivery, if any. *)
Record Emission := {
  em_event : string;
  em_data : string;
  em_to : option string;
  em_skip : option string
}.

(** [socketio.emit(event, data, include_self=...)] called in the handler
    of a message from [sid]: addressed to everybody, the sender skipped
    when [include_self] is false. *)
Definition socketio_emit (sid event data : string) (include_self : bool) : Emission :=
  {| em_event := event; em_data := data; em_to := None;
     em_skip := if include_self then None else Some sid |}.

(** [emit(event, data)], the context-aware function: without [broadcast]
    it is addressed to the sender's own room. *)
Definition emit (sid event data : string) : Emission :=
  {| em_event := event; em_data := data; em_to := Some sid; em_skip := None |}.

(** The sessions among [cs] that a message reaches. *)
Definition recipients (cs : list string) (e : Emission) : list string :=
  filter (λ c, (em_to e = None ∨ em_to e = Some c) ∧ em_skip e ≠ Some c) cs.

(** One delivery: the session it goes to, the event and the payload. *)
Definition deliveries (cs : list string) (es : list Emission)
  : list (string * (string * string)) :=
  e ← es; c ← recipients cs e; [(c, (em_event e, em_data e))].

(** What session [c] receives among some deliveries, in order. *)
Definition received (c : string) (ds : list (string * (string * string)))
  : list (string * string) :=
  (filter (λ d, d.1 = c) ds).*2.

(** ** The handlers *)

Section Handlers.
Context `{JsonCodec}.

(** [handle_UpdateGrid], on 'clientGridUpdate'. *)
Definition handle_UpdateGrid (sid incomingJsonString : string) : M (list Emission) :=
  req <- lift (match json_loads incomingJsonString with
               | Some req => Ok req
               | None => Raise BadMessage
               end) ;;
  method <- lift (getitem req "method") ;;
  (if py_eq_str method "manual" then
     position <- lift (getitem req "position") ;;
     value <- lift (getitem req "value") ;;
     Redis.lset "grid" position value
   else if py_eq_str method "revealed" then
     position <- lift (getitem req "position") ;;
     Redis.lpush "revealedGrid" [position]
   else ret tt) ;;;
  ret [socketio_emit sid "serverGridUpdate" incomingJsonString false].

(** [handle_UpdatePosition], on 'clientPositionUpdate'. *)
Definition handle_UpdatePosition (sid incomingJsonString : string) : M (list Emission) :=
  req <- lift (match json_loads incomingJsonString with
               | Some req => Ok req
               | None => Raise BadMessage
               end) ;;
  position <- lift (getitem req "position") ;;
  Redis.hset "userHash" sid position ;;;
  hashValues <- Redis.hvals "userHash" ;;
  hashKeys <- Redis.hkeys "userHash" ;;
  let jsonEntries := [("websocketID", hashKeys); ("position", hashValues)] in
  ret [socketio_emit sid "serverPositionUpdate" (json_dumps jsonEntries) true].

(** [handle_connect], on 'connect'. *)
Definition handle_connect (sid : string) : M (list Emission) :=
  Redis.hset "userHash" sid (PyStr "0") ;;;
  ret [emit sid "serverAssignID" sid].

(** The second [handle_connect] of the source, registered on
    'disconnect'. *)
Definition handle_disconnect (sid : string) : M (list Emission) :=
  Redis.hdel "userHash" sid ;;;
  hashValues <- Redis.hvals "userHash" ;;
  let output := [("position", hashValues)] in
  ret [socketio_emit sid "serverPositionUpdate" (json_dumps output) false].

End Handlers.

(** ** Loading a puzzle *)

(** The decoded puzzle file; a field is [None] when the JSON object does
    not have it. *)
Record PuzzleSize := {
  size_rows : option Z;
  size_cols : option Z
}.

Record PuzzleClues := {
  clues_across : option (list string);
  clues_down : option (list string)
}.

Record PuzzleDef := {
  def_size : option PuzzleSize;
  def_grid : option (list string);
  def_clues : option PuzzleClues;
  def_gridnums : option (list Z);
  def_title : option string
}.

(** [obj[k]] on a decoded object. *)
Definition field {A} (k : string) (o : option A) : M A :=
  match o with
  | Some a => ret a
  | None => raise (KeyError k)
  end.

(** The loop over [gridCopy]: every letter other than '.' becomes ' '. *)
Definition blank_letters (gridCopy : list string) : list string :=
  map (λ thisLetter, if String.eqb thisLetter "." then thisLetter else " ") gridCopy.

(** [initializeRedisFromJson], from [r.flushdb()] on.  [gridCopy] is the
    very list [jsonData["grid"]]; it is changed only after that list has
    been pushed to "answerGrid". *)
Definition initializeRedisFromJson (jsonData : PuzzleDef) : M unit :=
  Redis.flushdb ;;;
  Redis.set "stateNumber" (PyInt 0) ;;;
  size <- field "size" (def_size jsonData) ;;
  cols <- field "cols" (size_cols size) ;;
  Redis.set "cols" (PyInt cols) ;;;
  size <- field "size" (def_size jsonData) ;;
  rows <- field "rows" (size_rows size) ;;
  Redis.set "rows" (PyInt rows) ;;;
  grid <- field "grid" (def_grid jsonData) ;;
  Redis.rpush "answerGrid" (PyStr <$> grid) ;;;
  clues <- field "clues" (def_clues jsonData) ;;
  across <- field "across" (clues_across clues) ;;
  Redis.rpush "cluesAcross" (PyStr <$> across) ;;;
  clues <- field "clues" (def_clues jsonData) ;;
  down <- field "down" (clues_down clues) ;;
  Redis.rpush "cluesDown" (PyStr <$> down) ;;;
  gridnums <- field "gridnums" (def_gridnums jsonData) ;;
  Redis.rpush "gridNumbers" (PyInt <$> gridnums) ;;;
  title <- field "title" (def_title jsonData) ;;
  Redis.set "title" (PyStr title) ;;;
  Redis.lpush "revealedGrid" [PyStr "-1"] ;;;
  gridCopy <- field "grid" (def_grid jsonData) ;;
  Redis.lpush "grid" (PyStr <$> blank_letters gridCopy).

(** ** The running server *)

Record Server := {
  store : gmap string rvalue;
  clients : list string
}.

(** The main program: load the puzzle, then serve; when the load raises,
    the program ends there and no server runs. *)
Definition main (jsonData : PuzzleDef) (db : gmap string rvalue)
  : gmap string rvalue * result Server :=
  match initializeRedisFromJson jsonData db with
  | (db', Ok _) => (db', Ok {| store := db'; clients := [] |})
  | (db', Raise e) => (db', Raise e)
  end.

Inductive Event :=
| Connect (sid : string)
| Disconnect (sid : string)
| ClientGridUpdate (sid : string) (data : string)
| ClientPositionUpdate (sid : string) (data : string).

(** What one event leaves behind: the server after it, the exception the
    handler raised if it did, and the deliveries made. *)
Record Outcome := {
  after : Server;
  raised : option exception;
  delivered : list (string * (string * string))
}.

Definition run_handler (h : M (list Emission)) (db : gmap string rvalue)
    (audience remaining : list string) : Outcome :=
  match h db with
  | (db', Ok es) =>
      {| after := {| store := db'; clients := remaining |};
         raised := None;
         delivered := deliveries audience es |}
  | (db', Raise e) =>
      {| after := {| store := db'; clients := remaining |};
         raised := Some e;
         delivered := [] |}
  end.

Section Dispatch.
Context `{JsonCodec}.

(** Socket.IO's dispatch.  A session is connected from before its
    'connect' handler runs until after its 'disconnect' handler has
    run. *)
Definition step (st : Server) (ev : Event) : Outcome :=
  match ev with
  | Connect sid =>
      run_handler (handle_connect sid) (store st)
        (clients st ++ [sid]) (clients st ++ [sid])
  | Disconnect sid =>
      run_handler (handle_disconnect sid) (store st)
        (clients st) (filter (λ c, c ≠ sid) (clients st))
  | ClientGridUpdate sid data =>
      run_handler (handle_UpdateGrid sid data) (store st)
        (clients st) (clients st)
  | ClientPositionUpdate sid data =>
      run_handler (handle_UpdatePosition sid data) (store st)
        (clients st) (clients st)
  end.

(** Session ids are fresh on connect; every other event comes from a
    connected session. *)
Definition admissible (st : Server) (ev : Event) : Prop :=
  match ev with
  | Connect sid => sid ∉ clients st
  | Disconnect sid
  | ClientGridUpdate sid _
  | ClientPositionUpdate sid _ => sid ∈ clients st
  end.

(** The states the server goes through after loading [jsonData]. *)
Inductive reachable (jsonData : PuzzleDef) : Server → Prop :=
| reach_main db db' st :
    main jsonData db = (db', Ok st) → reachable jsonData st
| reach_step st ev :
    reachable jsonData st → admissible st ev →
    reachable jsonData (after (step st ev)).

End Dispatch.

(** ** Well-formed puzzle definitions *)

(** [rows * cols] of a definition that has both. *)
Definition cell_count (jsonData : PuzzleDef) : option Z :=
  match def_size jsonData with
  | Some size =>
      match size_rows size, size_cols size with
      | Some rows, Some cols => Some (rows * cols)
      | _, _ => None
      end
  | None => None
  end.

(** The paths the loader reads. *)
Definition missing_field (jsonData : PuzzleDef) : bool :=
  match jsonData with
  | {| def_size := Some {| size_rows := Some _; size_cols := Some _ |};
       def_grid := Some _;
       def_clues := Some {| clues_across := Some _; clues_down := Some _ |};
       def_gridnums := Some _;
       def_title := Some _ |} => false
  | _ => true
  end.

(** Some of [grid], [gridnums] and [rows * cols] disagree on the number of
    cells. *)
Definition length_mismatch (jsonData : PuzzleDef) : bool :=
  match cell_count jsonData, def_grid jsonData, def_gridnums jsonData with
  | Some n, Some grid, Some gridnums =>
      negb ((Z.of_nat (length grid) =? n) && (Z.of_nat (length gridnums) =? n))
  | _, _, _ => false
  end.

Definition structurally_inconsistent (jsonData : PuzzleDef) : bool :=
  missing_field jsonData || length_mismatch jsonData.

(** ** Reading the store *)

(** The live grid, the reveal list and the presence entries as the
    '/crossword' route and the position handlers read them. *)
Definition grid_of (db : gmap string rvalue) : list string :=
  match db !! "grid" with Some (RList l) => l | _ => [] end.

Definition answerGrid_of (db : gmap string rvalue) : list string :=
  match db !! "answerGrid" with Some (RList l) => l | _ => [] end.

Definition revealedGrid_of (db : gmap string rvalue) : list string :=
  match db !! "revealedGrid" with Some (RList l) => l | _ => [] end.

Definition presence_of (db : gmap string rvalue) : list (string * string) :=
  match db !! "userHash" with Some (RHash h) => h | _ => [] end.

(** ** Worked examples: data *)

Definition dq : string := String (Ascii.ascii_of_nat 34) EmptyString.

(** [{"method": m, "position": p, "value": v}] as text. *)
Definition grid_message (m : string) (p : Z) (v : string) : string :=
  "{" +:+ dq +:+ "method" +:+ dq +:+ ": " +:+ dq +:+ m +:+ dq +:+ ", "
  +:+ dq +:+ "position" +:+ dq +:+ ": " +:+ py_str p +:+ ", "
  +:+ dq +:+ "value" +:+ dq +:+ ": " +:+ dq +:+ v +:+ dq +:+ "}".

(** [{"position": p}] as text. *)
Definition position_message (p : Z) : string :=
  "{" +:+ dq +:+ "position" +:+ dq +:+ ": " +:+ py_str p +:+ "}".

Definition msg_manual : string := grid_message "manual" 1 "B".
Definition msg_manual_tail : string := grid_message "manual" (-1) "Z".
Definition msg_manual_far : string := grid_message "manual" 4 "Z".
Definition msg_revealed : string := grid_message "revealed" 3 " ".
Definition msg_check : string := grid_message "check" 0 " ".
Definition msg_position : string := position_message 5.

Definition grid_request (m : string) (p : Z) (v : string) : gmap string pyval :=
  <["method" := PyStr m]> (<["position" := PyInt p]> (<["value" := PyStr v]> ∅)).

(** A decoder for the messages above. *)
Definition example_loads (s : string) : option (gmap string pyval) :=
  if String.eqb s msg_manual then Some (grid_request "manual" 1 "B")
  else if String.eqb s msg_manual_tail then Some (grid_request "manual" (-1) "Z")
  else if String.eqb s msg_manual_far then Some (grid_request "manual" 4 "Z")
  else if String.eqb s msg_revealed then Some (grid_request "revealed" 3 " ")
  else if String.eqb s msg_check then Some (grid_request "check" 0 " ")
  else if String.eqb s msg_position then Some (<["position" := PyInt 5]> ∅)
  else None.

Definition dumps_list (l : list string) : string :=
  "[" +:+ String.concat ", " ((λ s, dq +:+ s +:+ dq) <$> l) +:+ "]".

(** [json.dumps] on a dictionary of lists of plain strings. *)
Definition example_dumps (d : list (string * list string)) : string :=
  "{" +:+ String.concat ", " ((λ kv, dq +:+ kv.1 +:+ dq +:+ ": " +:+ dumps_list kv.2) <$> d)
  +:+ "}".

Definition example_codec : JsonCodec :=
  {| json_loads := example_loads; json_dumps := example_dumps |}.

(** The 2 x 2 puzzle without black cells. *)
Definition puzzle_2x2 : PuzzleDef :=
  {| def_size := Some {| size_rows := Some 2; size_cols := Some 2 |};
     def_grid := Some ["A"; "B"; "C"; "D"];
     def_clues := Some {| clues_across := Some ["1. ab"; "3. cd"];
                          clues_down := Some ["1. ac"; "2. bd"] |};
     def_gridnums := Some [1; 2; 3; 0];
     def_title := Some "tiny" |}.

(** A 1 x 2 puzzle whose first cell is black. *)
Definition puzzle_1x2 : PuzzleDef :=
  {| def_size := Some {| size_rows := Some 1; size_cols := Some 2 |};
     def_grid := Some ["."; "A"];
     def_clues := Some {| clues_across := Some ["1. a"];
                          clues_down := Some ["1. a"] |};
     def_gridnums := Some [0; 1];
     def_title := Some "lopsided" |}.

(** A definition announcing 2 x 2 cells and giving one. *)
Definition puzzle_short : PuzzleDef :=
  {| def_size := Some {| size_rows := Some 2; size_cols := Some 2 |};
     def_grid := Some ["A"];
     def_clues := Some {| clues_across := Some ["1. a"];
                          clues_down := Some ["1. a"] |};
     def_gridnums := Some [1; 0; 0];
     def_title := Some "short" |}.

(** A definition without a title. *)
Definition puzzle_untitled : PuzzleDef :=
  {| def_size := Some {| size_rows := Some 2; size_cols := Some 2 |};
     def_grid := Some ["A"; "B"; "C"; "D"];
     def_clues := Some {| clues_across := Some ["1. ab"; "3. cd"];
                          clues_down := Some ["1. ac"; "2. bd"] |};
     def_gridnums := Some [1; 2; 3; 0];
     def_title := None |}.

(** The server right after loading a puzzle into an empty database. *)
Definition booted (jsonData : PuzzleDef) : Server :=
  {| store := (initializeRedisFromJson jsonData ∅).1; clients := [] |}.

(** The server after the events [evs], one after the other. *)
Definition run `{JsonCodec} (st : Server) (evs : list Event) : Server :=
  foldl (λ st ev, after (step st ev)) st evs.

Global Instance admissible_dec (st : Server) (ev : Event) : Decision (admissible st ev).
Proof. destruct ev; simpl; apply _. Defined.

(** Every event of [evs] is admissible when its turn comes. *)
Fixpoint admissible_trace `{JsonCodec} (st : Server) (evs : list Event) : bool :=
  match evs with
  | [] => true
  | ev :: evs' =>
      bool_decide (admissible st ev) && admissible_trace (after (step st ev)) evs'
  end.

(** ** The shape of the store while the server runs *)

(** The live grid is a list of [n] cells, the reveal list is a list, the
    fields of the presence hash are the connected sessions in their order
    of arrival, and no session is connected twice. *)
Record coherent (n : nat) (st : Server) : Prop := {
  coh_grid : ∃ g, store st !! "grid" = Some (RList g) ∧ length g = n;
  coh_revealed : ∃ r, store st !! "revealedGrid" = Some (RList r);
  coh_presence :
    match store st !! "userHash" with
    | None => clients st = []
    | Some (RHash h) => h.*1 = clients st
    | Some _ => False
    end;
  coh_nodup : NoDup (clients st)
}.

(** Two sessions connected to the 2 x 2 puzzle. *)
Definition two_clients : Server :=
  @run example_codec (booted puzzle_2x2) [Connect "id1"; Connect "id2"].

(** ** The '/crossword' route and [displayBoard] *)

(** What the two read-only functions can raise: what a Redis command
    raises, and the exceptions of Python itself. *)
Inductive py_exception :=
| FromRedis (e : exception)
| AttributeError             (* None has no attribute 'decode' *)
| ValueError (text : string) (* int() on a text that is no integer literal *)
| TypeError.                 (* range() on something that is no integer *)

Inductive outcome (A : Type) :=
| Returned (a : A)
| Raised (e : py_exception).
Arguments Returned {A} a.
Arguments Raised {A} e.

(** A computation of the route: as [M], with the larger set of
    exceptions. *)
Definition R (A : Type) : Type := gmap string rvalue → gmap string rvalue * outcome A.

Definition retR {A} (a : A) : R A := λ db, (db, Returned a).
Definition raiseR {A} (e : py_exception) : R A := λ db, (db, Raised e).
Definition bindR {A B} (m : R A) (k : A → R B) : R B :=
  λ db, match m db with
        | (db', Returned a) => k a db'
        | (db', Raised e) => (db', Raised e)
        end.

(** A Redis command inside the route. *)
Definition redis {A} (m : M A) : R A :=
  λ db, match m db with
        | (db', Ok a) => (db', Returned a)
        | (db', Raise e) => (db', Raised (FromRedis e))
        end.

Declare Scope route_scope.
Delimit Scope route_scope with route.
Notation "x <- m ;; k" := (bindR m (λ x, k))
  (at level 100, m at next level, k at level 200, right associativity) : route_scope.

(** Python's [int] on a text, taken as given; all that is used of it is
    that it reads back what [str] writes. *)
Class IntParser := {
  py_int : string → option Z;
  py_int_str : ∀ z, py_int (py_str z) = Some z
}.

(** [b.decode('utf-8')] on what [r.get] returned: [None] has no
    [decode]. *)
Definition decode (v : option string) : R string :=
  match v with
  | Some b => retR b
  | None => raiseR AttributeError
  end.

(** The dictionary the route returns. *)
Record Snapshot := {
  out_rows : Z;
  out_cols : Z;
  out_across : list string;
  out_down : list string;
  out_grid : list string;
  out_gridnums : list Z;
  out_answerGrid : list string;
  out_title : string;
  out_revealedGrid : list Z
}.

Section Route.
Context `{IntParser}.

(** [int(x.decode('utf-8'))] *)
Definition decode_int (x : string) : R Z :=
  match py_int x with
  | Some z => retR z
  | None => raiseR (ValueError x)
  end.

(** [[int(x.decode('utf-8')) for x in l]]: the elements in order, up to the
    first that raises. *)
Fixpoint decode_ints (l : list string) : R (list Z) :=
  match l with
  | [] => retR []
  | x :: l' =>
      (z <- decode_int x ;;
       zs <- decode_ints l' ;;
       retR (z :: zs))%route
  end.

(** [handle_Crossword], the '/crossword' route. *)
Definition handle_Crossword : R Snapshot :=
  (cluesDown <- redis (Redis.lrange_all "cluesDown") ;;
   cluesAcross <- redis (Redis.lrange_all "cluesAcross") ;;
   grid <- redis (Redis.lrange_all "grid") ;;
   answerGrid <- redis (Redis.lrange_all "answerGrid") ;;
   cols <- redis (Redis.get "cols") ;;
   cols <- decode cols ;;
   cols <- decode_int cols ;;
   rows <- redis (Redis.get "rows") ;;
   rows <- decode rows ;;
   rows <- decode_int rows ;;
   gridNumbers <- redis (Redis.lrange_all "gridNumbers") ;;
   gridNumbers <- decode_ints gridNumbers ;;
   title <- redis (Redis.get "title") ;;
   title <- decode title ;;
   revealedGrid <- redis (Redis.lrange_all "revealedGrid") ;;
   revealedGrid <- decode_ints revealedGrid ;;
   retR {| out_rows := rows; out_cols := cols;
           out_across := cluesAcross; out_down := cluesDown;
           out_grid := grid;
           out_gridnums := gridNumbers;
           out_answerGrid := answerGrid;
           out_title := title;
           out_revealedGrid := revealedGrid |})%route.

End Route.

(** [displayBoard]: three GETs, then [range(rows)].  [r.get] returns bytes
    or [None], never an integer, so [range] raises before a line is
    printed; the value is the lines printed. *)
Definition displayBoard : R (list string) :=
  (grid <- redis (Redis.get "grid") ;;
   rows <- redis (Redis.get "rows") ;;
   cols <- redis (Redis.get "cols") ;;
   raiseR TypeError)%route.

(** A reader of decimal texts, for the examples. *)
Definition example_int (s : string) : option Z :=
  Z.of_int <$> NilZero.int_of_string s.

Definition example_int_parser : IntParser.
Proof.
  refine {| py_int := example_int |}.
  intros z. unfold example_int, py_str.
  rewrite NilZero.isi; [simpl; by rewrite of_to| |];
    destruct z as [|p|p]; simpl; try discriminate;
    intros [= Hp]; by apply Unsigned.to_uint_nonnil in Hp.
Defined.



(** The keys no handler writes. *)
Definition static_key (k : string) : bool :=
  negb (bool_decide (k ∈ ["grid"; "revealedGrid"; "userHash"])).

(** A 1 x 3 puzzle with a black cell at each end. *)
Definition puzzle_symmetric : PuzzleDef :=
  {| def_size := Some {| size_rows := Some 1; size_cols := Some 3 |};
     def_grid := Some ["."; "A"; "."];
     def_clues := Some {| clues_across := Some ["1. a"];
                          clues_down := Some ["1. a"] |};
     def_gridnums := Some [0; 1; 0];
     def_title := Some "framed" |}.



(** One session connected to the 2 x 2 puzzle. *)
Definition one_client : Server :=
  @run example_codec (booted puzzle_2x2) [Connect "id1"].

(** * Properties *)

(** ** Encoding and decoding of command arguments *)

Lemma encode_all_str (l : list string) : Redis.encode_all (PyStr <$> l) = Ok l.
Proof. induction l as [|s l IH]; csimpl; [done|]. by rewrite IH. Qed.

Lemma encode_all_int (l : list Z) : Redis.encode_all (PyInt <$> l) = Ok (py_str <$> l).
Proof. induction l as [|z l IH]; csimpl; [done|]. by rewrite IH. Qed.

Lemma int_of_string_py_str (z : Z) :
  NilZero.int_of_string (py_str z) = Some (Z.to_int z).
Proof.
  unfold py_str. apply NilZero.isi.
  - destruct z as [|p|p]; simpl; try discriminate.
    intros [= Hp]. by apply Unsigned.to_uint_nonnil in Hp.
  - destruct z as [|p|p]; simpl; try discriminate.
    intros [= Hp]. by apply Unsigned.to_uint_nonnil in Hp.
Qed.

(** The server reads back the integer that redis-py wrote, provided it
    fits 64 bits. *)
Lemma string2ll_py_str (z : Z) :
  Redis.string2ll (py_str z) = if int64 z then Some z else None.
Proof.
  unfold Redis.string2ll. rewrite int_of_string_py_str, of_to.
  by rewrite String.eqb_refl.
Qed.

Lemma py_eq_str_spec (v : pyval) (s : string) : py_eq_str v s = true ↔ v = PyStr s.
Proof.
  destruct v; simpl; try (split; [discriminate|congruence]).
  rewrite String.eqb_eq. split; congruence.
Qed.

Lemma py_eq_str_false (v : pyval) (s : string) : v ≠ PyStr s → py_eq_str v s = false.
Proof.
  intros Hne. destruct (py_eq_str v s) eqn:Heq; [|done].
  by apply py_eq_str_spec in Heq.
Qed.

Lemma lset_int (name : string) (p : Z) (v : string) (g : list string)
    (db : gmap string rvalue) :
  db !! name = Some (RList g) →
  Redis.lset name (PyInt p) (PyStr v) db =
    if int64 p then
      let len := Z.of_nat (length g) in
      let pos := if p <? 0 then p + len else p in
      if (0 <=? pos) && (pos <? len)
      then (<[name := RList (<[Z.to_nat pos := v]> g)]> db, Ok tt)
      else (db, Raise (ResponseError IndexOutOfRange))
    else (db, Raise (ResponseError NotAnInteger)).
Proof.
  intros Hg. unfold Redis.lset, bind, lift. simpl. rewrite Hg, string2ll_py_str.
  by destruct (int64 p).
Qed.

(** ** Hashes *)

Lemma hash_set_new (f v : string) (h : list (string * string)) :
  f ∉ h.*1 → Redis.hash_set f v h = h ++ [(f, v)].
Proof.
  induction h as [|[f' v'] h IH]; simpl; [done|].
  intros Hf. apply not_elem_of_cons in Hf as [Hne Hf].
  destruct (String.eqb_spec f' f) as [->|_]; [done|]. by rewrite IH.
Qed.

Lemma hash_set_keys (f v : string) (h : list (string * string)) :
  f ∈ h.*1 → (Redis.hash_set f v h).*1 = h.*1.
Proof.
  induction h as [|[f' v'] h IH]; simpl.
  - by intros ?%elem_of_nil.
  - intros Hf. destruct (String.eqb_spec f' f) as [->|Hne]; [done|].
    csimpl. rewrite IH; [done|]. by apply elem_of_cons in Hf as [->|].
Qed.

Lemma hash_set_entry (f v v' : string) (h : list (string * string)) :
  NoDup h.*1 → (f, v') ∈ Redis.hash_set f v h ↔ v' = v.
Proof.
  induction h as [|[f0 v0] h IH]; simpl.
  - intros _. rewrite list_elem_of_singleton. split; congruence.
  - intros [Hf0 Hnd]%NoDup_cons.
    destruct (String.eqb_spec f0 f) as [->|Hne].
    + rewrite elem_of_cons. split; [|intros ->; by left].
      intros [[=]|Hin]; [done|]. destruct Hf0.
      apply list_elem_of_fmap. by exists (f, v').
    + rewrite elem_of_cons, IH by done. split; [|by right].
      by intros [[=]|].
Qed.

Lemma hash_del_keys (f : string) (h : list (string * string)) :
  (Redis.hash_del f h).*1 = filter (λ c, c ≠ f) h.*1.
Proof.
  unfold Redis.hash_del. induction h as [|[f' v'] h IH]; [done|].
  csimpl. rewrite !filter_cons. simpl.
  destruct (decide (f' ≠ f)); csimpl; by rewrite IH.
Qed.

(** ** Who receives what *)

Lemma elem_of_recipients (c : string) (cs : list string) (e : Emission) :
  c ∈ recipients cs e ↔
  c ∈ cs ∧ (em_to e = None ∨ em_to e = Some c) ∧ em_skip e ≠ Some c.
Proof. unfold recipients. rewrite list_elem_of_filter. tauto. Qed.

(** A single emission reaches each of its recipients once. *)
Lemma received_one (c : string) (cs : list string) (e : Emission) :
  NoDup cs →
  received c (deliveries cs [e]) =
  if decide (c ∈ recipients cs e) then [(em_event e, em_data e)] else [].
Proof.
  intros Hnd. unfold received, deliveries. simpl. rewrite app_nil_r.
  assert (NoDup (recipients cs e)) as Hr by by apply NoDup_filter.
  revert Hr. generalize (recipients cs e) as l.
  induction l as [|x l IH]; intros Hl; [done|].
  apply NoDup_cons in Hl as [Hx Hl]. csimpl. rewrite filter_cons. simpl.
  specialize (IH Hl).
  repeat case_decide; subst; csimpl; rewrite ?IH; try done;
    rewrite elem_of_cons in *; try tauto.
  exfalso. intuition congruence.
Qed.

Lemma relayed_to_others (sid raw event : string) (cs : list string) (c : string) :
  NoDup cs →
  received c (deliveries cs [socketio_emit sid event raw false]) =
  if decide (c ∈ cs ∧ c ≠ sid) then [(event, raw)] else [].
Proof.
  intros Hnd. rewrite received_one by done. simpl.
  destruct (decide (c ∈ cs ∧ c ≠ sid)) as [[Hc Hne]|Hno].
  - rewrite decide_True; [done|]. apply elem_of_recipients. simpl.
    split_and!; [done|by left|congruence].
  - rewrite decide_False; [done|].
    intros (Hc & _ & Hskip)%elem_of_recipients. simpl in Hskip.
    apply Hno. split; [done|congruence].
Qed.

Lemma broadcast_to_all (sid raw event : string) (cs : list string) (c : string) :
  NoDup cs →
  received c (deliveries cs [socketio_emit sid event raw true]) =
  if decide (c ∈ cs) then [(event, raw)] else [].
Proof.
  intros Hnd. rewrite received_one by done. simpl.
  destruct (decide (c ∈ cs)) as [Hc|Hno].
  - rewrite decide_True; [done|]. apply elem_of_recipients. simpl.
    split_and!; [done|by left|done].
  - rewrite decide_False; [done|]. by intros (Hc & _)%elem_of_recipients.
Qed.

Lemma recipients_emit (sid event data : string) (cs : list string) :
  sid ∉ cs → recipients (cs ++ [sid]) (emit sid event data) = [sid].
Proof.
  unfold recipients, emit. simpl.
  induction cs as [|c cs IH]; intros Hsid.
  - simpl. rewrite filter_cons, filter_nil.
    rewrite decide_True; [done|]. split; [by right|done].
  - apply not_elem_of_cons in Hsid as [Hne Hsid]. simpl.
    rewrite filter_cons, decide_False; [by apply IH|].
    intros [[[=]|[=]] _]. done.
Qed.

(** ** Loading *)

(** Runs the loader on a definition split into its fields: [close]
    settles the branches that end before the last command. *)
Ltac run_loader close :=
  unfold initializeRedisFromJson, Redis.flushdb, Redis.set, Redis.rpush,
    Redis.lpush, field;
  unfold bind, lift, ret, raise; simpl;
  rewrite ?encode_all_str, ?encode_all_int; simpl;
  try close;
  repeat match goal with
    | |- context [match ?l with [] => _ | _ :: _ => _ end] =>
        is_var l; destruct l; simpl; [close|];
        rewrite ?lookup_insert_ne, ?lookup_empty by done; simpl;
        try close
    | |- context [match _ <$> ?l with [] => _ | _ :: _ => _ end] =>
        is_var l; destruct l; simpl; [close|];
        rewrite ?lookup_insert_ne, ?lookup_empty by done; simpl;
        try close
    end;
  repeat (rewrite ?lookup_insert_ne, ?lookup_empty by done; simpl);
  try close.

(** A load that succeeds found every field, pushed non-empty lists, and
    left exactly the ten keys below. *)
Lemma load_ok (jsonData : PuzzleDef) (db db' : gmap string rvalue) :
  initializeRedisFromJson jsonData db = (db', Ok tt) →
  ∃ rows cols grid across down gridnums title,
    jsonData =
      {| def_size := Some {| size_rows := Some rows; size_cols := Some cols |};
         def_grid := Some grid;
         def_clues := Some {| clues_across := Some across; clues_down := Some down |};
         def_gridnums := Some gridnums;
         def_title := Some title |} ∧
    grid ≠ [] ∧
    db' = <["grid" := RList (rev (blank_letters grid))]>
          (<["revealedGrid" := RList ["-1"]]>
          (<["title" := RString title]>
          (<["gridNumbers" := RList (py_str <$> gridnums)]>
          (<["cluesDown" := RList down]>
          (<["cluesAcross" := RList across]>
          (<["answerGrid" := RList grid]>
          (<["rows" := RString (py_str rows)]>
          (<["cols" := RString (py_str cols)]>
          (<["stateNumber" := RString "0"]> ∅))))))))).
Proof.
  destruct jsonData
    as [[[[rows|] [cols|]]|] [grid|] [[[across|] [down|]]|] [gridnums|] [title|]];
    run_loader discriminate.
  intros [= <-]. eexists _, _, _, _, _, _, _.
  split; [reflexivity|]. split; [discriminate|]. reflexivity.
Qed.

(** A load that raises does so on a missing field or on an empty list
    handed to RPUSH or LPUSH. *)
Lemma load_raises (jsonData : PuzzleDef) (db db' : gmap string rvalue) (e : exception) :
  initializeRedisFromJson jsonData db = (db', Raise e) →
  e = ResponseError WrongArity ∨ ∃ k, e = KeyError k.
Proof.
  destruct jsonData
    as [[[[rows|] [cols|]]|] [grid|] [[[across|] [down|]]|] [gridnums|] [title|]];
    run_loader ltac:(intros [= <- <-]; eauto).
  all: discriminate.
Qed.

Lemma main_coherent (jsonData : PuzzleDef) (db db' : gmap string rvalue) (st : Server) :
  main jsonData db = (db', Ok st) →
  ∃ grid, def_grid jsonData = Some grid ∧ coherent (length grid) st ∧
          answerGrid_of (store st) = grid ∧
          grid_of (store st) = rev (blank_letters grid) ∧
          revealedGrid_of (store st) = ["-1"].
Proof.
  unfold main.
  destruct (initializeRedisFromJson jsonData db) as [db1 [[]|e]] eqn:Hload; [|done].
  intros [= <- <-].
  apply load_ok in Hload as (rows & cols & grid & across & down & nums & title
                             & -> & Hne & ->).
  exists grid. split; [done|].
  unfold answerGrid_of, grid_of, revealedGrid_of. simpl.
  rewrite ?lookup_insert_ne, ?lookup_insert_eq by done.
  split_and!; try done.
  split; simpl; rewrite ?lookup_insert_ne, ?lookup_insert_eq, ?lookup_empty by done.
  - eexists. split; [done|]. unfold blank_letters.
    by rewrite length_rev, length_map.
  - eauto.
  - done.
  - constructor.
Qed.

(** ** The handlers on a coherent store *)

Section Properties.
Context `{JsonCodec}.
Local Arguments socketio_emit : simpl never.
Local Arguments emit : simpl never.
Local Arguments deliveries : simpl never.
Local Arguments received : simpl never.

Lemma run_handler_after (h : M (list Emission)) (db : gmap string rvalue)
    (audience remaining : list string) :
  after (run_handler h db audience remaining) =
  {| store := (h db).1; clients := remaining |}.
Proof. unfold run_handler. by destruct (h db) as [db' [es|e]]. Qed.

Lemma handle_UpdateGrid_manual (sid raw : string) (req : gmap string pyval)
    (position value : pyval) (db : gmap string rvalue) :
  json_loads raw = Some req →
  req !! "method" = Some (PyStr "manual") →
  req !! "position" = Some position →
  req !! "value" = Some value →
  handle_UpdateGrid sid raw db =
    match Redis.lset "grid" position value db with
    | (db', Ok _) => (db', Ok [socketio_emit sid "serverGridUpdate" raw false])
    | (db', Raise e) => (db', Raise e)
    end.
Proof.
  intros Hreq Hm Hp Hv. unfold handle_UpdateGrid, getitem, bind, lift, ret.
  rewrite Hreq, Hm, Hp, Hv. simpl.
  by destruct (Redis.lset "grid" position value db) as [db' [[]|e]].
Qed.

Lemma handle_UpdateGrid_revealed (sid raw : string) (req : gmap string pyval)
    (position : pyval) (db : gmap string rvalue) :
  json_loads raw = Some req →
  req !! "method" = Some (PyStr "revealed") →
  req !! "position" = Some position →
  handle_UpdateGrid sid raw db =
    match Redis.lpush "revealedGrid" [position] db with
    | (db', Ok _) => (db', Ok [socketio_emit sid "serverGridUpdate" raw false])
    | (db', Raise e) => (db', Raise e)
    end.
Proof.
  intros Hreq Hm Hp. unfold handle_UpdateGrid, getitem, bind, lift, ret.
  rewrite Hreq, Hm, Hp. simpl.
  by destruct (Redis.lpush "revealedGrid" [position] db) as [db' [[]|e]].
Qed.

Lemma handle_UpdateGrid_other (sid raw : string) (req : gmap string pyval)
    (method : pyval) (db : gmap string rvalue) :
  json_loads raw = Some req →
  req !! "method" = Some method →
  method ≠ PyStr "manual" → method ≠ PyStr "revealed" →
  handle_UpdateGrid sid raw db =
    (db, Ok [socketio_emit sid "serverGridUpdate" raw false]).
Proof.
  intros Hreq Hm Hn1 Hn2. unfold handle_UpdateGrid, getitem, bind, lift, ret.
  rewrite Hreq, Hm. simpl. by rewrite !py_eq_str_false.
Qed.

(** Whatever the message, [handle_UpdateGrid] leaves the store as it
    was, or replaces the live grid by one of the same length, or
    replaces the reveal list. *)
Lemma handle_UpdateGrid_store (sid raw : string) (db db' : gmap string rvalue)
    (r : result (list Emission)) (g rv : list string) :
  db !! "grid" = Some (RList g) →
  db !! "revealedGrid" = Some (RList rv) →
  handle_UpdateGrid sid raw db = (db', r) →
  db' = db ∨
  (∃ g', db' = <["grid" := RList g']> db ∧ length g' = length g) ∨
  (∃ rv', db' = <["revealedGrid" := RList rv']> db).
Proof.
  intros Hg Hrv. unfold handle_UpdateGrid, Redis.lset, Redis.lpush, getitem.
  unfold bind, lift, ret. cbv beta.
  repeat (case_match; simplify_eq/=); intros; simplify_eq; eauto.
  all: right; left; eexists; split; [done|]; by rewrite length_insert.
Qed.

(** Whatever the message, [handle_UpdatePosition] leaves the store as
    it was or writes the sender's field of the presence hash. *)
Lemma handle_UpdatePosition_store (sid raw : string) (db db' : gmap string rvalue)
    (r : result (list Emission)) :
  handle_UpdatePosition sid raw db = (db', r) →
  db' = db ∨
  ∃ b, db' = <["userHash" :=
                 RHash (match db !! "userHash" with
                        | Some (RHash h) => Redis.hash_set sid b h
                        | _ => [(sid, b)]
                        end)]> db.
Proof.
  unfold handle_UpdatePosition, Redis.hset, Redis.hvals, Redis.hkeys, getitem.
  unfold bind, lift, ret. cbv beta.
  repeat (case_match; simplify_eq/=); intros; simplify_eq; eauto.
Qed.

Lemma handle_connect_run (sid : string) (db : gmap string rvalue) :
  (db !! "userHash" = None ∨ ∃ h, db !! "userHash" = Some (RHash h)) →
  handle_connect sid db =
    (<["userHash" := RHash (match db !! "userHash" with
                            | Some (RHash h) => Redis.hash_set sid "0" h
                            | _ => [(sid, "0")]
                            end)]> db,
     Ok [emit sid "serverAssignID" sid]).
Proof.
  unfold handle_connect, Redis.hset, bind, lift, ret. cbv beta. simpl.
  by intros [->|[h ->]].
Qed.

Lemma handle_disconnect_run (sid : string) (db : gmap string rvalue)
    (h : list (string * string)) :
  db !! "userHash" = Some (RHash h) →
  handle_disconnect sid db =
    (match Redis.hash_del sid h with
     | [] => delete "userHash" db
     | h' => <["userHash" := RHash h']> db
     end,
     Ok [socketio_emit sid "serverPositionUpdate"
           (json_dumps [("position", (Redis.hash_del sid h).*2)]) false]).
Proof.
  intros Hh. unfold handle_disconnect, Redis.hdel, Redis.hvals, bind, lift, ret.
  cbv beta. rewrite Hh. destruct (Redis.hash_del sid h) as [|fv h'] eqn:Hdel.
  - by rewrite lookup_delete_eq.
  - by rewrite lookup_insert_eq.
Qed.

(** ** The store stays coherent *)

Lemma coherent_presence (n : nat) (st : Server) :
  coherent n st →
  (presence_of (store st)).*1 = clients st ∧
  (store st !! "userHash" = None ∨
   ∃ h, store st !! "userHash" = Some (RHash h)).
Proof.
  intros [_ _ Hp _]. unfold presence_of.
  destruct (store st !! "userHash") as [[| |h]|]; try done.
  - split; [done|]. right. by exists h.
  - split; [done|]. by left.
Qed.

Lemma step_coherent (n : nat) (st : Server) (ev : Event) :
  coherent n st → admissible st ev → coherent n (after (step st ev)).
Proof.
  intros Hc Hev. pose proof (coherent_presence _ _ Hc) as [Hkeys Hty].
  destruct Hc as [(g & Hg & Hlen) (rv & Hrv) Hp Hnd].
  destruct ev as [sid|sid|sid raw|sid raw]; simpl in *.
  - unfold run_handler. rewrite handle_connect_run by done. simpl.
    split; simpl; rewrite ?lookup_insert_ne, ?lookup_insert_eq by done; eauto.
    + destruct Hty as [Hn|[h Hh]].
      * rewrite Hn in *. by rewrite Hp.
      * rewrite Hh in *. rewrite hash_set_new by by rewrite Hp.
        by rewrite fmap_app, Hp.
    + apply NoDup_app. split_and!; [done| |apply NoDup_singleton].
      by intros x Hx ->%list_elem_of_singleton.
  - destruct Hty as [Hn|[h Hh]].
    { rewrite Hn in Hp. rewrite Hp in Hev. by apply elem_of_nil in Hev. }
    unfold run_handler. rewrite (handle_disconnect_run _ _ _ Hh). simpl.
    rewrite Hh in Hp.
    pose proof (hash_del_keys sid h) as Hdk. rewrite Hp in Hdk.
    split; simpl.
    + exists g. destruct (Redis.hash_del sid h);
        by rewrite ?lookup_delete_ne, ?lookup_insert_ne by done.
    + exists rv. destruct (Redis.hash_del sid h);
        by rewrite ?lookup_delete_ne, ?lookup_insert_ne by done.
    + destruct (Redis.hash_del sid h) eqn:Hdel.
      * by rewrite lookup_delete_eq, <- Hdk.
      * by rewrite lookup_insert_eq.
    + by apply NoDup_filter.
  - rewrite run_handler_after.
    destruct (handle_UpdateGrid sid raw (store st)) as [db' r] eqn:Hrun.
    apply (handle_UpdateGrid_store _ _ _ _ _ _ _ Hg Hrv) in Hrun
      as [->|[(g' & -> & Hlen')|(rv' & ->)]];
      split; simpl; rewrite ?lookup_insert_ne, ?lookup_insert_eq by done; eauto.
    exists g'. split; [done|congruence].
  - rewrite run_handler_after.
    destruct (handle_UpdatePosition sid raw (store st)) as [db' r] eqn:Hrun.
    apply handle_UpdatePosition_store in Hrun as [->|(b & ->)];
      split; simpl; rewrite ?lookup_insert_ne, ?lookup_insert_eq by done; eauto.
    destruct Hty as [Hn|[h Hh]].
    + rewrite Hn in Hp. rewrite Hp in Hev. by apply elem_of_nil in Hev.
    + rewrite Hh in *. rewrite hash_set_keys; [done|]. by rewrite Hp.
Qed.

Lemma reachable_coherent (jsonData : PuzzleDef) (st : Server) :
  reachable jsonData st →
  ∃ grid, def_grid jsonData = Some grid ∧ coherent (length grid) st.
Proof.
  induction 1 as [db db' st Hmain|st ev _ (grid & Hgrid & Hc) Hev].
  - apply main_coherent in Hmain as (grid & ? & ? & _). eauto.
  - exists grid. split; [done|]. by apply step_coherent.
Qed.

Lemma reachable_loaded (jsonData : PuzzleDef) (st : Server) :
  reachable jsonData st → missing_field jsonData = false.
Proof.
  induction 1 as [db db' st Hmain|]; [|done].
  unfold main in Hmain.
  destruct (initializeRedisFromJson jsonData db) as [db1 [[]|e]] eqn:Hload; [|done].
  by apply load_ok in Hload as (?&?&?&?&?&?&?&->&_).
Qed.

Lemma reachable_trace (jsonData : PuzzleDef) (st : Server) (evs : list Event) :
  reachable jsonData st → admissible_trace st evs = true →
  reachable jsonData (run st evs).
Proof.
  revert st. induction evs as [|ev evs IH]; intros st Hst; simpl; [done|].
  intros [Hev Hevs]%andb_prop. apply IH; [|done].
  apply reach_step; [done|]. by apply bool_decide_eq_true in Hev.
Qed.

Lemma booted_reachable (jsonData : PuzzleDef) :
  (initializeRedisFromJson jsonData ∅).2 = Ok tt →
  reachable jsonData (booted jsonData).
Proof.
  intros Hok. apply (reach_main _ ∅ (initializeRedisFromJson jsonData ∅).1).
  unfold main, booted.
  by destruct (initializeRedisFromJson jsonData ∅) as [db' [[]|e]].
Qed.

Lemma example_reachable (jsonData : PuzzleDef) (evs : list Event) :
  (initializeRedisFromJson jsonData ∅).2 = Ok tt →
  admissible_trace (booted jsonData) evs = true →
  reachable jsonData (run (booted jsonData) evs).
Proof. intros. by apply reachable_trace; [apply booted_reachable|]. Qed.

(** ** Grid updates *)

(** C2: a "manual" update whose position lies in [0, rows * cols) is
    handled without error; afterwards the live grid holds the message's
    value at that position, every connected session other than the
    sender receives exactly one message, the incoming text itself under
    'serverGridUpdate', and the sender receives nothing.  The puzzle is
    one whose grid has [rows * cols] cells, and the position is one a
    Redis index can hold (below 2^63). *)
Theorem manual_update_stored_and_relayed (jsonData : PuzzleDef) (st : Server)
    (sid raw : string) (req : gmap string pyval) (n p : Z) (v : string) :
  reachable jsonData st →
  cell_count jsonData = Some n →
  length_mismatch jsonData = false →
  json_loads raw = Some req →
  req !! "method" = Some (PyStr "manual") →
  req !! "position" = Some (PyInt p) →
  req !! "value" = Some (PyStr v) →
  0 ≤ p < n → p < 2 ^ 63 →
  let o := step st (ClientGridUpdate sid raw) in
  raised o = None ∧
  grid_of (store (after o)) !! Z.to_nat p = Some v ∧
  (∀ c, c ∈ clients st → c ≠ sid →
        received c (delivered o) = [("serverGridUpdate", raw)]) ∧
  received sid (delivered o) = [].
Proof.
  intros Hreach Hn Hmis Hreq Hm Hp Hv Hrange H63.
  pose proof (reachable_loaded _ _ Hreach) as Hfields.
  apply reachable_coherent in Hreach as (grid & Hgrid & [(g & Hg & Hlen) _ _ Hnd]).
  assert (Z.of_nat (length g) = n) as Hgn.
  { unfold length_mismatch in Hmis. rewrite Hn, Hgrid in Hmis.
    destruct jsonData as [? ? ? [nums|] ?]; simpl in *;
      [|by repeat case_match].
    apply negb_false_iff, andb_true_iff in Hmis as [?%Z.eqb_eq _]. congruence. }
  simpl. unfold run_handler.
  rewrite (handle_UpdateGrid_manual _ _ _ _ _ _ Hreq Hm Hp Hv).
  rewrite (lset_int _ _ _ _ _ Hg).
  assert (int64 p = true) as -> by (unfold int64; lia).
  cbv zeta. assert ((p <? 0) = false) as -> by lia.
  assert ((0 <=? p) && (p <? Z.of_nat (length g)) = true) as -> by lia.
  simpl. split_and!; [done| | |].
  - unfold grid_of. rewrite lookup_insert_eq.
    apply list_lookup_insert_eq. lia.
  - intros c Hc Hne. rewrite relayed_to_others by done.
    by rewrite decide_True.
  - rewrite relayed_to_others by done. rewrite decide_False; [done|].
    by intros [_ ?].
Qed.

(** C3: a "revealed" update is handled without error and adds the
    message's position to "revealedGrid": the list afterwards is the
    position (as Redis stores it) followed by the list before, so it
    contains the position, and one more copy of it than before: nothing
    is deduplicated. *)
Theorem revealed_update_recorded (jsonData : PuzzleDef) (st : Server)
    (sid raw : string) (req : gmap string pyval) (p : Z) :
  reachable jsonData st →
  json_loads raw = Some req →
  req !! "method" = Some (PyStr "revealed") →
  req !! "position" = Some (PyInt p) →
  let o := step st (ClientGridUpdate sid raw) in
  let before := revealedGrid_of (store st) in
  let now := revealedGrid_of (store (after o)) in
  raised o = None ∧
  now = py_str p :: before ∧
  py_str p ∈ now ∧
  length (filter (λ x, x = py_str p) now) =
    S (length (filter (λ x, x = py_str p) before)).
Proof.
  intros Hreach Hreq Hm Hp.
  apply reachable_coherent in Hreach as (grid & Hgrid & [_ (rv & Hrv) _ _]).
  simpl. unfold run_handler.
  rewrite (handle_UpdateGrid_revealed _ _ _ _ _ Hreq Hm Hp).
  unfold Redis.lpush, bind, lift. simpl. rewrite Hrv. simpl.
  unfold revealedGrid_of. rewrite lookup_insert_eq, Hrv.
  split_and!; [done|done|left|].
  by rewrite filter_cons, decide_True.
Qed.

(** C4: a grid update whose method is neither "manual" nor "revealed"
    raises nothing and leaves the server as it was: the whole store
    (grid, reveal list, every other key, the presence hash) and the
    connected sessions. *)
Theorem unknown_method_no_store_change (st : Server) (sid raw : string)
    (req : gmap string pyval) (method : pyval) :
  json_loads raw = Some req →
  req !! "method" = Some method →
  method ≠ PyStr "manual" → method ≠ PyStr "revealed" →
  let o := step st (ClientGridUpdate sid raw) in
  raised o = None ∧ after o = st.
Proof.
  intros Hreq Hm Hn1 Hn2. simpl. unfold run_handler.
  rewrite (handle_UpdateGrid_other _ _ _ _ _ Hreq Hm Hn1 Hn2). simpl.
  by destruct st.
Qed.

(** C10: a grid update whose method is neither "manual" nor "revealed"
    is relayed all the same: the store is unchanged, every connected
    session other than the sender receives exactly the incoming text
    under 'serverGridUpdate', and the sender receives nothing. *)
Theorem unknown_method_still_relayed (jsonData : PuzzleDef) (st : Server)
    (sid raw : string) (req : gmap string pyval) (method : pyval) :
  reachable jsonData st →
  json_loads raw = Some req →
  req !! "method" = Some method →
  method ≠ PyStr "manual" → method ≠ PyStr "revealed" →
  let o := step st (ClientGridUpdate sid raw) in
  store (after o) = store st ∧
  (∀ c, c ∈ clients st → c ≠ sid →
        received c (delivered o) = [("serverGridUpdate", raw)]) ∧
  received sid (delivered o) = [].
Proof.
  intros Hreach Hreq Hm Hn1 Hn2.
  apply reachable_coherent in Hreach as (grid & Hgrid & [_ _ _ Hnd]).
  simpl. unfold run_handler.
  rewrite (handle_UpdateGrid_other _ _ _ _ _ Hreq Hm Hn1 Hn2). simpl.
  split_and!; [done| |].
  - intros c Hc Hne. rewrite relayed_to_others by done. by rewrite decide_True.
  - rewrite relayed_to_others by done. rewrite decide_False; [done|].
    by intros [_ ?].
Qed.

(** C5, as the code has it: a "manual" update whose position [p] lies
    outside [-N, N), [N] being the length of the live grid, fails with
    the reply error of LSET (index out of range; not an integer when [p]
    does not fit 64 bits); the server is left as it was and nothing is
    sent to anybody. *)
Theorem manual_update_beyond_grid (jsonData : PuzzleDef) (st : Server)
    (sid raw : string) (req : gmap string pyval) (p : Z) (v : string) :
  reachable jsonData st →
  json_loads raw = Some req →
  req !! "method" = Some (PyStr "manual") →
  req !! "position" = Some (PyInt p) →
  req !! "value" = Some (PyStr v) →
  (p < - Z.of_nat (length (grid_of (store st)))) ∨
    (Z.of_nat (length (grid_of (store st))) ≤ p) →
  let o := step st (ClientGridUpdate sid raw) in
  raised o = Some (ResponseError
                     (if int64 p then IndexOutOfRange else NotAnInteger)) ∧
  after o = st ∧
  delivered o = [].
Proof.
  intros Hreach Hreq Hm Hp Hv.
  apply reachable_coherent in Hreach as (grid & Hgrid & [(g & Hg & Hlen) _ _ _]).
  unfold grid_of. rewrite Hg. intros Hout.
  simpl. unfold run_handler.
  rewrite (handle_UpdateGrid_manual _ _ _ _ _ _ Hreq Hm Hp Hv).
  rewrite (lset_int _ _ _ _ _ Hg).
  destruct (int64 p); [|by destruct st].
  cbv zeta.
  assert ((0 <=? (if p <? 0 then p + Z.of_nat (length g) else p))
          && ((if p <? 0 then p + Z.of_nat (length g) else p)
              <? Z.of_nat (length g)) = false) as ->.
  { destruct (Z.ltb_spec p 0); lia. }
  by destruct st.
Qed.

(** ** Presence *)

(** C7: a position update from a connected session [sid] carrying the
    integer [p] is handled without error; afterwards the presence hash
    maps [sid] to [p] and to nothing else, its fields are the connected
    sessions, and every connected session, the sender included,
    receives exactly one message under 'serverPositionUpdate': the dump
    of all the ids under "websocketID" and all the positions under
    "position".  When the sender is the only session connected, the
    snapshot has the sender's entry and no other. *)
Theorem position_update_broadcast (jsonData : PuzzleDef) (st : Server)
    (sid raw : string) (req : gmap string pyval) (p : Z) :
  reachable jsonData st →
  sid ∈ clients st →
  json_loads raw = Some req →
  req !! "position" = Some (PyInt p) →
  let o := step st (ClientPositionUpdate sid raw) in
  let entries := presence_of (store (after o)) in
  let snapshot :=
    json_dumps [("websocketID", entries.*1); ("position", entries.*2)] in
  raised o = None ∧
  (∀ v, (sid, v) ∈ entries ↔ v = py_str p) ∧
  entries.*1 = clients st ∧
  (∀ c, c ∈ clients st →
        received c (delivered o) = [("serverPositionUpdate", snapshot)]) ∧
  (clients st = [sid] → entries = [(sid, py_str p)]).
Proof.
  intros Hreach Hsid Hreq Hp.
  apply reachable_coherent in Hreach as (grid & Hgrid & [_ _ Hpres Hnd]).
  destruct (store st !! "userHash") as [[| |h]|] eqn:Hh; try done.
  2:{ rewrite Hpres in Hsid. by apply elem_of_nil in Hsid. }
  simpl. unfold run_handler, handle_UpdatePosition, getitem.
  unfold Redis.hset, Redis.hvals, Redis.hkeys, bind, lift, ret. cbv beta.
  rewrite Hreq, Hp. simpl. rewrite Hh, !lookup_insert_eq. simpl.
  unfold presence_of. rewrite lookup_insert_eq.
  assert (sid ∈ h.*1) as Hin by by rewrite Hpres.
  split_and!; [done| | | |].
  - intros v. apply hash_set_entry. by rewrite Hpres.
  - by rewrite hash_set_keys.
  - intros c Hc. rewrite broadcast_to_all by done. by rewrite decide_True.
  - intros Hone. rewrite Hone in Hpres.
    destruct h as [|[f v] [|? ?]]; simplify_eq/=.
    by rewrite String.eqb_refl.
Qed.

(** C8: the connect handler of a new session [sid] raises nothing;
    afterwards the presence hash maps [sid] to "0" and to nothing else
    (the entry is added after those already there), and the only
    delivery made is the session's own id, under 'serverAssignID', to
    [sid] itself: no other session receives anything and nothing of the
    puzzle is sent. *)
Theorem connect_registers_and_assigns (jsonData : PuzzleDef) (st : Server)
    (sid : string) :
  reachable jsonData st →
  sid ∉ clients st →
  let o := step st (Connect sid) in
  let entries := presence_of (store (after o)) in
  raised o = None ∧
  (∀ v, (sid, v) ∈ entries ↔ v = "0") ∧
  entries = presence_of (store st) ++ [(sid, "0")] ∧
  delivered o = [(sid, ("serverAssignID", sid))].
Proof.
  intros Hreach Hsid.
  apply reachable_coherent in Hreach as (grid & Hgrid & Hc).
  pose proof (coherent_presence _ _ Hc) as [Hkeys Hty].
  destruct Hc as [_ _ Hpres Hnd].
  simpl. unfold run_handler. rewrite handle_connect_run by done. simpl.
  unfold presence_of in *. rewrite lookup_insert_eq.
  assert (match store st !! "userHash" with
          | Some (RHash h) => Redis.hash_set sid "0" h
          | _ => [(sid, "0")]
          end = match store st !! "userHash" with
                | Some (RHash h) => h
                | _ => []
                end ++ [(sid, "0")]) as ->.
  { destruct Hty as [->|[h Hh]]; [done|]. rewrite Hh in *.
    apply hash_set_new. by rewrite Hkeys. }
  split_and!; [done| |done|].
  - intros v. rewrite elem_of_app, list_elem_of_singleton.
    split; [|intros ->; by right].
    intros [Hin|[=]]; [|done]. destruct Hsid. rewrite <- Hkeys.
    apply list_elem_of_fmap. by exists (sid, v).
  - unfold deliveries. simpl. by rewrite app_nil_r, recipients_emit.
Qed.

(** C9: the disconnect handler of a connected session [sid] raises
    nothing; afterwards the presence hash has no field [sid], holds the
    other entries unchanged, and its fields are the sessions still
    connected; every session that stays receives exactly one message
    under 'serverPositionUpdate', the dump of the remaining positions
    under "position" alone, and the leaving session receives nothing. *)
Theorem disconnect_removes_and_broadcasts (jsonData : PuzzleDef) (st : Server)
    (sid : string) :
  reachable jsonData st →
  sid ∈ clients st →
  let o := step st (Disconnect sid) in
  let entries := presence_of (store (after o)) in
  let snapshot := json_dumps [("position", entries.*2)] in
  raised o = None ∧
  (sid ∉ entries.*1) ∧
  entries = Redis.hash_del sid (presence_of (store st)) ∧
  entries.*1 = clients (after o) ∧
  (∀ c, c ∈ clients st → c ≠ sid →
        received c (delivered o) = [("serverPositionUpdate", snapshot)]) ∧
  received sid (delivered o) = [].
Proof.
  intros Hreach Hsid.
  apply reachable_coherent in Hreach as (grid & Hgrid & [_ _ Hpres Hnd]).
  destruct (store st !! "userHash") as [[| |h]|] eqn:Hh; try done.
  2:{ rewrite Hpres in Hsid. by apply elem_of_nil in Hsid. }
  simpl. unfold run_handler. rewrite (handle_disconnect_run _ _ _ Hh). simpl.
  assert (presence_of (match Redis.hash_del sid h with
                       | [] => delete "userHash" (store st)
                       | p :: l => <["userHash" := RHash (p :: l)]> (store st)
                       end) = Redis.hash_del sid h) as ->.
  { unfold presence_of. destruct (Redis.hash_del sid h).
    - by rewrite lookup_delete_eq.
    - by rewrite lookup_insert_eq. }
  unfold presence_of. rewrite Hh.
  split_and!; [done| |done| | |].
  - rewrite hash_del_keys, list_elem_of_filter. by intros [? _].
  - by rewrite hash_del_keys, Hpres.
  - intros c Hc Hne. rewrite relayed_to_others by done. by rewrite decide_True.
  - rewrite relayed_to_others by done. rewrite decide_False; [done|].
    by intros [_ ?].
Qed.

End Properties.

(** ** Loading: what the claims say *)

(** C1: on the 1 x 2 puzzle whose first cell is black the load succeeds
    and the live grid comes out reversed: the answer grid is '.', 'A'
    while the live grid is ' ', '.', so the live grid is blank where the
    answer grid has its '.' and has a '.' where the answer grid has a
    letter.  ([main_coherent] gives the general form: the live grid is the
    blanked answer grid read backwards.) *)
Theorem live_grid_reversed_on_lopsided_puzzle :
  let loaded := initializeRedisFromJson puzzle_1x2 ∅ in
  loaded.2 = Ok tt ∧
  cell_count puzzle_1x2 = Some 2 ∧
  structurally_inconsistent puzzle_1x2 = false ∧
  answerGrid_of loaded.1 = ["."; "A"] ∧
  grid_of loaded.1 = [" "; "."].
Proof. vm_compute. done. Qed.

(** C6 fails as stated: a definition announcing 2 x 2 cells with a grid of
    one cell and three clue numbers is loaded without error, and the
    server starts on it. *)
Lemma mismatched_definition_loads :
  structurally_inconsistent puzzle_short = true ∧
  ∃ st, (main puzzle_short ∅).2 = Ok st ∧
        grid_of (store st) = [" "] ∧
        store st !! "rows" = Some (RString "2") ∧
        store st !! "cols" = Some (RString "2").
Proof. split; [reflexivity|]. eexists. vm_compute. done. Qed.

(** C6, as the code has it: when the definition lacks one of the fields
    the loader reads, the load raises, a [KeyError] unless an empty list
    given to RPUSH was met first, and [main] ends there without a
    server. *)
Theorem missing_field_stops_main (jsonData : PuzzleDef) (db : gmap string rvalue) :
  missing_field jsonData = true →
  ∃ db' e, main jsonData db = (db', Raise e) ∧
           (e = ResponseError WrongArity ∨ ∃ k, e = KeyError k).
Proof.
  intros Hmiss. unfold main.
  destruct (initializeRedisFromJson jsonData db) as [db' [[]|e]] eqn:Hload.
  - apply load_ok in Hload as (?&?&?&?&?&?&?&->&_). discriminate.
  - exists db', e. split; [done|]. by eapply load_raises.
Qed.

Lemma missing_field_stops_main_witness :
  ∃ db' e, main puzzle_untitled ∅ = (db', Raise e) ∧
           (e = ResponseError WrongArity ∨ ∃ k, e = KeyError k).
Proof. apply (missing_field_stops_main puzzle_untitled ∅). reflexivity. Defined.

(** ** The claims on the 2 x 2 puzzle with two sessions *)

Lemma two_clients_reachable : @reachable example_codec puzzle_2x2 two_clients.
Proof. apply (@example_reachable example_codec); reflexivity. Qed.

Lemma manual_update_witness :
  let o := @step example_codec two_clients (ClientGridUpdate "id1" msg_manual) in
  raised o = None ∧
  grid_of (store (after o)) !! Z.to_nat 1 = Some "B" ∧
  (∀ c, c ∈ clients two_clients → c ≠ "id1" →
        received c (delivered o) = [("serverGridUpdate", msg_manual)]) ∧
  received "id1" (delivered o) = [].
Proof.
  apply (@manual_update_stored_and_relayed example_codec puzzle_2x2 two_clients
           "id1" msg_manual (grid_request "manual" 1 "B") 4 1 "B").
  - apply two_clients_reachable.
  - reflexivity.
  - reflexivity.
  - reflexivity.
  - reflexivity.
  - reflexivity.
  - reflexivity.
  - lia.
  - lia.
Defined.

Lemma revealed_update_witness :
  let o := @step example_codec two_clients (ClientGridUpdate "id1" msg_revealed) in
  let before := revealedGrid_of (store two_clients) in
  let now := revealedGrid_of (store (after o)) in
  raised o = None ∧
  now = py_str 3 :: before ∧
  py_str 3 ∈ now ∧
  length (filter (λ x, x = py_str 3) now) =
    S (length (filter (λ x, x = py_str 3) before)).
Proof.
  apply (@revealed_update_recorded example_codec puzzle_2x2 two_clients
           "id1" msg_revealed (grid_request "revealed" 3 " ") 3).
  - apply two_clients_reachable.
  - reflexivity.
  - reflexivity.
  - reflexivity.
Defined.

Lemma unknown_method_no_store_change_witness :
  let o := @step example_codec two_clients (ClientGridUpdate "id1" msg_check) in
  raised o = None ∧ after o = two_clients.
Proof.
  apply (@unknown_method_no_store_change example_codec two_clients
           "id1" msg_check (grid_request "check" 0 " ") (PyStr "check")).
  - reflexivity.
  - reflexivity.
  - discriminate.
  - discriminate.
Defined.

Lemma unknown_method_still_relayed_witness :
  let o := @step example_codec two_clients (ClientGridUpdate "id1" msg_check) in
  store (after o) = store two_clients ∧
  (∀ c, c ∈ clients two_clients → c ≠ "id1" →
        received c (delivered o) = [("serverGridUpdate", msg_check)]) ∧
  received "id1" (delivered o) = [].
Proof.
  apply (@unknown_method_still_relayed example_codec puzzle_2x2 two_clients
           "id1" msg_check (grid_request "check" 0 " ") (PyStr "check")).
  - apply two_clients_reachable.
  - reflexivity.
  - reflexivity.
  - discriminate.
  - discriminate.
Defined.

(** C5 fails as stated: position -1 is no index of the 2 x 2 grid, yet
    the update is accepted: it overwrites the last cell and is relayed to
    the other session. *)
Lemma negative_position_writes_last_cell :
  let o := @step example_codec two_clients
             (ClientGridUpdate "id1" msg_manual_tail) in
  @json_loads example_codec msg_manual_tail = Some (grid_request "manual" (-1) "Z") ∧
  cell_count puzzle_2x2 = Some 4 ∧
  ¬ (0 ≤ -1 < 4) ∧
  raised o = None ∧
  grid_of (store two_clients) = [" "; " "; " "; " "] ∧
  grid_of (store (after o)) = [" "; " "; " "; "Z"] ∧
  delivered o = [("id2", ("serverGridUpdate", msg_manual_tail))].
Proof. split_and!; try (vm_compute; reflexivity). lia. Qed.

Lemma manual_update_beyond_grid_witness :
  let o := @step example_codec two_clients
             (ClientGridUpdate "id1" msg_manual_far) in
  raised o = Some (ResponseError (if int64 4 then IndexOutOfRange else NotAnInteger)) ∧
  after o = two_clients ∧
  delivered o = [].
Proof.
  apply (@manual_update_beyond_grid example_codec puzzle_2x2 two_clients
           "id1" msg_manual_far (grid_request "manual" 4 "Z") 4 "Z").
  - apply two_clients_reachable.
  - reflexivity.
  - reflexivity.
  - reflexivity.
  - reflexivity.
  - right. vm_compute. discriminate.
Defined.

Lemma position_update_witness :
  let o := @step example_codec two_clients (ClientPositionUpdate "id2" msg_position) in
  let entries := presence_of (store (after o)) in
  let snapshot :=
    @json_dumps example_codec
      [("websocketID", entries.*1); ("position", entries.*2)] in
  raised o = None ∧
  (∀ v, ("id2", v) ∈ entries ↔ v = py_str 5) ∧
  entries.*1 = clients two_clients ∧
  (∀ c, c ∈ clients two_clients →
        received c (delivered o) = [("serverPositionUpdate", snapshot)]) ∧
  (clients two_clients = ["id2"] → entries = [("id2", py_str 5)]).
Proof.
  apply (@position_update_broadcast example_codec puzzle_2x2 two_clients
           "id2" msg_position (<["position" := PyInt 5]> ∅) 5).
  - apply two_clients_reachable.
  - apply (bool_decide_unpack _). vm_compute. exact I.
  - reflexivity.
  - reflexivity.
Defined.

Lemma connect_witness :
  let o := @step example_codec two_clients (Connect "id3") in
  let entries := presence_of (store (after o)) in
  raised o = None ∧
  (∀ v, ("id3", v) ∈ entries ↔ v = "0") ∧
  entries = presence_of (store two_clients) ++ [("id3", "0")] ∧
  delivered o = [("id3", ("serverAssignID", "id3"))].
Proof.
  apply (@connect_registers_and_assigns example_codec puzzle_2x2 two_clients "id3").
  - apply two_clients_reachable.
  - apply (bool_decide_unpack _). vm_compute. exact I.
Defined.

Lemma disconnect_witness :
  let o := @step example_codec two_clients (Disconnect "id1") in
  let entries := presence_of (store (after o)) in
  let snapshot := @json_dumps example_codec [("position", entries.*2)] in
  raised o = None ∧
  ("id1" ∉ entries.*1) ∧
  entries = Redis.hash_del "id1" (presence_of (store two_clients)) ∧
  entries.*1 = clients (after o) ∧
  (∀ c, c ∈ clients two_clients → c ≠ "id1" →
        received c (delivered o) = [("serverPositionUpdate", snapshot)]) ∧
  received "id1" (delivered o) = [].
Proof.
  apply (@disconnect_removes_and_broadcasts example_codec puzzle_2x2 two_clients "id1").
  - apply two_clients_reachable.
  - apply (bool_decide_unpack _). vm_compute. exact I.
Defined.

(** * Further properties *)

(** ** Loading *)


(** X1: a load that succeeds leaves the database exactly as a load into an
    empty database does, whatever it held before: the ten keys of the
    puzzle and nothing else, so no presence entry of an earlier session
    survives. *)
Theorem load_replaces_database (jsonData : PuzzleDef) (db db' : gmap string rvalue) :
  initializeRedisFromJson jsonData db = (db', Ok tt) →
  initializeRedisFromJson jsonData ∅ = (db', Ok tt) ∧
  dom db' = list_to_set ["stateNumber"; "cols"; "rows"; "answerGrid"; "cluesAcross";
                         "cluesDown"; "gridNumbers"; "title"; "revealedGrid"; "grid"] ∧
  presence_of db' = [].
Proof.
  intros Hload. split; [exact Hload|].
  apply load_ok in Hload as (rows & cols & grid & across & down & nums & title
                             & -> & _ & ->).
  split.
  - rewrite !dom_insert_L, dom_empty_L. simpl. set_solver.
  - unfold presence_of. by rewrite !lookup_insert_ne, lookup_empty by done.
Qed.



Lemma blank_letters_lookup (l : list string) (i : nat) :
  blank_letters l !! i = (λ c, if String.eqb c "." then "." else " ") <$> l !! i.
Proof.
  unfold blank_letters. change (map ?f l) with (f <$> l).
  rewrite list_lookup_fmap. destruct (l !! i) as [c|]; simpl; [|done].
  by destruct (String.eqb_spec c ".") as [->|].
Qed.

(** The live grid is the blanked answer grid read backwards. *)
Lemma load_mirror (jsonData : PuzzleDef) (db db' : gmap string rvalue) :
  initializeRedisFromJson jsonData db = (db', Ok tt) →
  let answers := answerGrid_of db' in
  let live := grid_of db' in
  def_grid jsonData = Some answers ∧
  length live = length answers ∧
  ∀ i, (i < length answers)%nat →
       live !! i = (λ c, if String.eqb c "." then "." else " ")
                     <$> answers !! (length answers - S i)%nat.
Proof.
  intros Hload.
  apply load_ok in Hload as (rows & cols & grid & across & down & nums & title
                             & -> & _ & ->).
  unfold answerGrid_of, grid_of. simpl.
  rewrite ?lookup_insert_ne, ?lookup_insert_eq by done.
  split_and!; [done| |].
  - unfold blank_letters. by rewrite length_rev, length_map.
  - intros i Hi. rewrite rev_alt. change (rev_append ?l []) with (reverse l).
    rewrite reverse_lookup.
    + rewrite blank_letters_lookup. unfold blank_letters. by rewrite length_map.
    + unfold blank_letters. by rewrite length_map.
Qed.

(** X4: after a load that succeeds the answer grid is the definition's
    grid, the live grid has its length, and cell [i] of the live grid is
    the blanked cell [N - 1 - i] of the answer grid ('.' for '.', ' ' for
    anything else): the live grid is the mirror image of the blanked
    answers. *)
Theorem live_grid_mirrors_answers (jsonData : PuzzleDef) (db db' : gmap string rvalue) :
  initializeRedisFromJson jsonData db = (db', Ok tt) →
  let answers := answerGrid_of db' in
  let live := grid_of db' in
  def_grid jsonData = Some answers ∧
  length live = length answers ∧
  ∀ i, (i < length answers)%nat →
       live !! i = (λ c, if String.eqb c "." then "." else " ")
                     <$> answers !! (length answers - S i)%nat.
Proof. exact (load_mirror jsonData db db'). Qed.

(** ** What a handler writes *)

Section MoreProperties.
Context `{JsonCodec}.
Local Arguments socketio_emit : simpl never.
Local Arguments emit : simpl never.
Local Arguments deliveries : simpl never.
Local Arguments received : simpl never.

(** What each handler can do to the database, whatever it holds. *)
Lemma handle_UpdateGrid_writes (sid raw : string) (db db' : gmap string rvalue)
    (r : result (list Emission)) :
  handle_UpdateGrid sid raw db = (db', r) →
  match r with
  | Raise _ => db' = db
  | Ok _ =>
      db' = db ∨
      (∃ g p b, db !! "grid" = Some (RList g) ∧ (p < length g)%nat ∧
                db' = <["grid" := RList (<[p := b]> g)]> db) ∨
      (∃ b, db' = <["revealedGrid" := RList (b :: revealedGrid_of db)]> db)
  end.
Proof.
  unfold handle_UpdateGrid, Redis.lset, Redis.lpush, getitem, revealedGrid_of.
  unfold bind, lift, ret. cbv beta.
  repeat (case_match; simplify_eq/=); intros; simplify_eq; eauto.
  all: right; left; eexists _, _, _; split_and!; [done| |done]; lia.
Qed.

Lemma handle_UpdatePosition_writes (sid raw : string) (db db' : gmap string rvalue)
    (r : result (list Emission)) :
  handle_UpdatePosition sid raw db = (db', r) →
  match r with
  | Raise _ => db' = db
  | Ok _ => ∃ b, db' = <["userHash" := RHash (Redis.hash_set sid b (presence_of db))]> db
  end.
Proof.
  unfold handle_UpdatePosition, Redis.hset, Redis.hvals, Redis.hkeys, getitem, presence_of.
  unfold bind, lift, ret. cbv beta.
  repeat (case_match; simplify_eq/=); intros; simplify_eq; eauto;
    rewrite lookup_insert_eq in *; simplify_eq.
Qed.

Lemma handle_connect_writes (sid : string) (db db' : gmap string rvalue)
    (r : result (list Emission)) :
  handle_connect sid db = (db', r) →
  match r with
  | Raise _ => db' = db
  | Ok _ => db' = <["userHash" := RHash (Redis.hash_set sid "0" (presence_of db))]> db
  end.
Proof.
  unfold handle_connect, Redis.hset, presence_of, bind, lift, ret. cbv beta. simpl.
  repeat (case_match; simplify_eq/=); intros; by simplify_eq.
Qed.

Lemma handle_disconnect_writes (sid : string) (db db' : gmap string rvalue)
    (r : result (list Emission)) :
  handle_disconnect sid db = (db', r) →
  match r with
  | Raise _ => db' = db
  | Ok _ =>
      db' = db ∨ db' = delete "userHash" db ∨
      ∃ h, h ≠ [] ∧ db' = <["userHash" := RHash h]> db
  end.
Proof.
  unfold handle_disconnect, Redis.hdel, Redis.hvals, bind, lift, ret. cbv beta.
  repeat (case_match; simplify_eq/=); intros; simplify_eq; eauto;
    rewrite ?lookup_insert_eq, ?lookup_delete_eq in *; simplify_eq.
  right; right. by exists (p :: l).
Qed.



(** The keys a handler leaves alone. *)
Lemma step_writes_apart (st : Server) (ev : Event) :
  let db' := store (after (step st ev)) in
  match ev with
  | ClientGridUpdate _ _ => db' !! "userHash" = store st !! "userHash"
  | _ => db' !! "grid" = store st !! "grid" ∧
         db' !! "revealedGrid" = store st !! "revealedGrid"
  end.
Proof.
  destruct ev as [sid|sid|sid raw|sid raw]; simpl; rewrite run_handler_after; simpl.
  - destruct (handle_connect sid (store st)) as [db' [es|e]] eqn:Hrun;
      apply handle_connect_writes in Hrun; simpl; subst; [|done].
    by rewrite !lookup_insert_ne.
  - destruct (handle_disconnect sid (store st)) as [db' [es|e]] eqn:Hrun;
      apply handle_disconnect_writes in Hrun; simpl; subst; [|done].
    destruct Hrun as [->|[->|(h & _ & ->)]]; [done| |].
    + by rewrite !lookup_delete_ne.
    + by rewrite !lookup_insert_ne.
  - destruct (handle_UpdateGrid sid raw (store st)) as [db' [es|e]] eqn:Hrun;
      apply handle_UpdateGrid_writes in Hrun; simpl; subst; [|done].
    destruct Hrun as [->|[(g & p & b & _ & _ & ->)|(b & ->)]]; [done| |];
      by rewrite lookup_insert_ne.
  - destruct (handle_UpdatePosition sid raw (store st)) as [db' [es|e]] eqn:Hrun;
      apply handle_UpdatePosition_writes in Hrun; simpl; subst; [|done].
    destruct Hrun as (b & ->). by rewrite !lookup_insert_ne.
Qed.

(** X6: a grid update never touches the presence hash, and connecting,
    disconnecting and position updates never touch the live grid or the
    reveal list, whatever the state and the message. *)
Theorem handlers_keep_to_their_keys (st : Server) (ev : Event) :
  let db' := store (after (step st ev)) in
  match ev with
  | ClientGridUpdate _ _ => db' !! "userHash" = store st !! "userHash"
  | _ => db' !! "grid" = store st !! "grid" ∧
         db' !! "revealedGrid" = store st !! "revealedGrid"
  end.
Proof. exact (step_writes_apart st ev). Qed.

Lemma static_key_ne (k : string) :
  static_key k = true → k ≠ "grid" ∧ k ≠ "revealedGrid" ∧ k ≠ "userHash".
Proof.
  unfold static_key. intros Hk%negb_true_iff%bool_decide_eq_false.
  split_and!; intros ->; apply Hk; set_solver.
Qed.

Lemma step_keeps_static_keys (st : Server) (ev : Event) (k : string) :
  static_key k = true →
  store (after (step st ev)) !! k = store st !! k.
Proof.
  intros (Hg & Hr & Hu)%static_key_ne.
  destruct ev as [sid|sid|sid raw|sid raw]; simpl; rewrite run_handler_after; simpl.
  - destruct (handle_connect sid (store st)) as [db' [es|e]] eqn:Hrun;
      apply handle_connect_writes in Hrun; simpl; subst; [|done].
    by rewrite lookup_insert_ne.
  - destruct (handle_disconnect sid (store st)) as [db' [es|e]] eqn:Hrun;
      apply handle_disconnect_writes in Hrun; simpl; subst; [|done].
    destruct Hrun as [->|[->|(h & _ & ->)]]; [done| |].
    + by rewrite lookup_delete_ne.
    + by rewrite lookup_insert_ne.
  - destruct (handle_UpdateGrid sid raw (store st)) as [db' [es|e]] eqn:Hrun;
      apply handle_UpdateGrid_writes in Hrun; simpl; subst; [|done].
    destruct Hrun as [->|[(g & p & b & _ & _ & ->)|(b & ->)]]; [done| |];
      by rewrite lookup_insert_ne.
  - destruct (handle_UpdatePosition sid raw (store st)) as [db' [es|e]] eqn:Hrun;
      apply handle_UpdatePosition_writes in Hrun; simpl; subst; [|done].
    destruct Hrun as (b & ->). by rewrite lookup_insert_ne.
Qed.

Lemma load_forgets (jsonData : PuzzleDef) (db : gmap string rvalue) :
  initializeRedisFromJson jsonData db = initializeRedisFromJson jsonData ∅.
Proof. reflexivity. Qed.

(** X5: whatever the clients send, every key other than "grid",
    "revealedGrid" and "userHash" (the answer grid, the clues, the clue
    numbers, the title, the dimensions) holds what the load wrote. *)
Theorem static_fields_never_change (jsonData : PuzzleDef) (st : Server) (k : string) :
  reachable jsonData st →
  static_key k = true →
  store st !! k = (initializeRedisFromJson jsonData ∅).1 !! k.
Proof.
  intros Hreach Hk. induction Hreach as [db db' st Hmain|st ev _ IH Hev].
  - unfold main in Hmain. rewrite load_forgets in Hmain.
    destruct (initializeRedisFromJson jsonData ∅) as [db1 [[]|e]]; [|done].
    by simplify_eq.
  - by rewrite step_keeps_static_keys.
Qed.
End MoreProperties.

(** ** Sessions and the reveal list *)

Section Sessions.
Context `{JsonCodec}.
Local Arguments socketio_emit : simpl never.
Local Arguments emit : simpl never.
Local Arguments deliveries : simpl never.
Local Arguments received : simpl never.

(** One event adds at most one entry to the reveal list, at its head. *)
Lemma step_reveal_list (st : Server) (ev : Event) :
  ∃ added, revealedGrid_of (store (after (step st ev)))
           = added ++ revealedGrid_of (store st) ∧ (length added ≤ 1)%nat.
Proof.
  destruct ev as [sid|sid|sid raw|sid raw].
  - exists []. split; [|simpl; lia]. unfold revealedGrid_of.
    by destruct (step_writes_apart st (Connect sid)) as [_ ->].
  - exists []. split; [|simpl; lia]. unfold revealedGrid_of.
    by destruct (step_writes_apart st (Disconnect sid)) as [_ ->].
  - simpl. rewrite run_handler_after. simpl.
    destruct (handle_UpdateGrid sid raw (store st)) as [db' [es|e]] eqn:Hrun;
      apply handle_UpdateGrid_writes in Hrun; simpl; subst;
      [|exists []; split; [done|simpl; lia]].
    destruct Hrun as [->|[(g & p & b & _ & _ & ->)|(b & ->)]].
    + exists []. split; [done|simpl; lia].
    + exists []. split; [|simpl; lia]. unfold revealedGrid_of.
      by rewrite lookup_insert_ne.
    + exists [b]. split; [|simpl; lia]. unfold revealedGrid_of at 1.
      by rewrite lookup_insert_eq.
  - exists []. split; [|simpl; lia]. unfold revealedGrid_of.
    by destruct (step_writes_apart st (ClientPositionUpdate sid raw)) as [_ ->].
Qed.

(** X8: whatever the events, the reveal list only grows, and at its head:
    after the events [evs] it is the list before them with at most one
    entry per event in front; no entry is ever removed or changed. *)
Theorem reveal_list_only_grows (st : Server) (evs : list Event) :
  ∃ added, revealedGrid_of (store (run st evs))
           = added ++ revealedGrid_of (store st) ∧
           (length added ≤ length evs)%nat.
Proof.
  revert st. induction evs as [|ev evs IH]; intros st; simpl.
  - by exists [].
  - destruct (IH (after (step st ev))) as (added2 & -> & Hlen2).
    destruct (step_reveal_list st ev) as (added1 & -> & Hlen1).
    exists (added2 ++ added1). rewrite length_app, app_assoc. split; [done|lia].
Qed.

(** X9: in every state the server reaches the reveal list ends with the
    sentinel "-1" the load pushed. *)
Theorem reveal_list_ends_with_sentinel (jsonData : PuzzleDef) (st : Server) :
  reachable jsonData st →
  ∃ revealed, revealedGrid_of (store st) = revealed ++ ["-1"].
Proof.
  induction 1 as [db db' st Hmain|st ev _ (revealed & IH) Hev].
  - apply main_coherent in Hmain as (grid & _ & _ & _ & _ & ->). by exists [].
  - destruct (step_reveal_list st ev) as (added & -> & _).
    exists (added ++ revealed). by rewrite IH, app_assoc.
Qed.

(** The presence hash is never an empty hash. *)
Lemma reachable_presence_key (jsonData : PuzzleDef) (st : Server) :
  reachable jsonData st → store st !! "userHash" ≠ Some (RHash []).
Proof.
  induction 1 as [db db' st Hmain|st ev _ IH Hev].
  - unfold main in Hmain.
    destruct (initializeRedisFromJson jsonData db) as [db1 [[]|e]] eqn:Hload; [|done].
    apply load_ok in Hload as (?&?&?&?&?&?&?&_&_&->). simplify_eq/=.
    by rewrite !lookup_insert_ne, lookup_empty by done.
  - destruct ev as [sid|sid|sid raw|sid raw];
      [| |by rewrite (step_writes_apart st (ClientGridUpdate sid raw))|];
      simpl; rewrite run_handler_after; simpl.
    + destruct (handle_connect sid (store st)) as [db' [es|e]] eqn:Hrun;
        apply handle_connect_writes in Hrun; simpl; subst; [|done].
      rewrite lookup_insert_eq. intros [= Hh].
      by destruct (presence_of (store st)) as [|[??]?]; simpl in Hh; [|case_match].
    + destruct (handle_disconnect sid (store st)) as [db' [es|e]] eqn:Hrun;
        apply handle_disconnect_writes in Hrun; simpl; subst; [|done].
      destruct Hrun as [->|[->|(h & Hne & ->)]]; [done| |].
      * by rewrite lookup_delete_eq.
      * rewrite lookup_insert_eq. by intros [= ->].
    + destruct (handle_UpdatePosition sid raw (store st)) as [db' [es|e]] eqn:Hrun;
        apply handle_UpdatePosition_writes in Hrun; simpl; subst; [|done].
      destruct Hrun as (b & ->). rewrite lookup_insert_eq. intros [= Hh].
      by destruct (presence_of (store st)) as [|[??]?]; simpl in Hh; [|case_match].
Qed.

Lemma hash_del_new (sid v : string) (h : list (string * string)) :
  sid ∉ h.*1 → Redis.hash_del sid (h ++ [(sid, v)]) = h.
Proof.
  intros Hsid. unfold Redis.hash_del. rewrite filter_app.
  rewrite (filter_cons _ (sid, v)), decide_False, filter_nil, app_nil_r by (simpl; tauto).
  induction h as [|[f w] h IH]; [done|]. csimpl in Hsid.
  apply not_elem_of_cons in Hsid as [Hne Hsid].
  rewrite filter_cons, decide_True by (simpl; congruence). by rewrite IH.
Qed.

Lemma filter_app_new (sid : string) (cs : list string) :
  sid ∉ cs → filter (λ c, c ≠ sid) (cs ++ [sid]) = cs.
Proof.
  intros Hsid. rewrite filter_app.
  rewrite (filter_cons _ sid), decide_False, filter_nil, app_nil_r by tauto.
  induction cs as [|c cs IH]; [done|].
  apply not_elem_of_cons in Hsid as [Hne Hsid].
  rewrite filter_cons, decide_True by congruence. by rewrite IH.
Qed.

(** X10: a session that connects and disconnects right away leaves the
    server exactly as it was: same store (the presence hash included, or
    absent again when nobody else is connected) and same sessions. *)
Theorem connect_then_disconnect_restores (jsonData : PuzzleDef) (st : Server)
    (sid : string) :
  reachable jsonData st →
  sid ∉ clients st →
  after (step (after (step st (Connect sid))) (Disconnect sid)) = st.
Proof.
  intros Hreach Hsid. pose proof (reachable_presence_key _ _ Hreach) as Hne.
  apply reachable_coherent in Hreach as (grid & Hgrid & Hc).
  pose proof (coherent_presence _ _ Hc) as [Hkeys Hty].
  unfold step. rewrite !run_handler_after. simpl.
  rewrite filter_app_new by done.
  rewrite handle_connect_run by done. simpl.
  destruct st as [db cs]; simpl in *. f_equal.
  unfold presence_of in Hkeys.
  destruct Hty as [Hn|[h Hh]].
  - rewrite Hn.
    erewrite handle_disconnect_run by apply lookup_insert_eq. simpl.
    unfold Redis.hash_del. rewrite filter_cons, decide_False by (simpl; tauto).
    rewrite filter_nil. simpl. by rewrite delete_insert_eq, delete_id.
  - rewrite Hh in *. rewrite hash_set_new by by rewrite Hkeys.
    erewrite handle_disconnect_run by apply lookup_insert_eq. simpl.
    rewrite hash_del_new by by rewrite Hkeys.
    destruct h as [|p h]; [done|].
    by rewrite insert_insert_eq, insert_id.
Qed.

(** X11: when the only connected session disconnects, the handler raises
    nothing, nobody receives the presence message, the presence hash is
    gone from the store and no session is left. *)
Theorem last_session_leaves_quietly (jsonData : PuzzleDef) (st : Server) (sid : string) :
  reachable jsonData st →
  clients st = [sid] →
  let o := step st (Disconnect sid) in
  raised o = None ∧
  delivered o = [] ∧
  store (after o) !! "userHash" = None ∧
  clients (after o) = [].
Proof.
  intros Hreach Hone.
  apply reachable_coherent in Hreach as (grid & Hgrid & [_ _ Hpres _]).
  rewrite Hone in Hpres.
  destruct (store st !! "userHash") as [[| |h]|] eqn:Hh; try done.
  destruct h as [|[f v] [|? ?]]; simplify_eq/=.
  unfold run_handler. rewrite (handle_disconnect_run _ _ _ Hh). simpl.
  unfold Redis.hash_del. rewrite Hone, !filter_cons, !filter_nil.
  rewrite !decide_False by (simpl; tauto). simpl.
  split_and!; try done.
  - unfold deliveries, recipients, socketio_emit. simpl.
    rewrite filter_cons, decide_False, filter_nil; [done|]. simpl. tauto.
  - by rewrite lookup_delete_eq.
Qed.


(** The keys the load wrote and no handler writes, as they stand in
    every state the server reaches. *)
Lemma reachable_static (jsonData : PuzzleDef) (st : Server) :
  reachable jsonData st →
  ∃ rows cols grid across down gridnums title,
    jsonData =
      {| def_size := Some {| size_rows := Some rows; size_cols := Some cols |};
         def_grid := Some grid;
         def_clues := Some {| clues_across := Some across; clues_down := Some down |};
         def_gridnums := Some gridnums;
         def_title := Some title |} ∧
    store st !! "answerGrid" = Some (RList grid) ∧
    store st !! "cluesAcross" = Some (RList across) ∧
    store st !! "cluesDown" = Some (RList down) ∧
    store st !! "gridNumbers" = Some (RList (py_str <$> gridnums)) ∧
    store st !! "title" = Some (RString title) ∧
    store st !! "rows" = Some (RString (py_str rows)) ∧
    store st !! "cols" = Some (RString (py_str cols)).
Proof.
  induction 1 as [db db' st Hmain|st ev _ IH Hev].
  - unfold main in Hmain.
    destruct (initializeRedisFromJson jsonData db) as [db1 [[]|e]] eqn:Hload; [|done].
    apply load_ok in Hload as (rows & cols & grid & across & down & nums & title
                               & -> & _ & ->).
    simplify_eq/=. exists rows, cols, grid, across, down, nums, title.
    by rewrite ?lookup_insert_ne, ?lookup_insert_eq by done.
  - destruct IH as (rows & cols & grid & across & down & nums & title
                    & -> & IH).
    exists rows, cols, grid, across, down, nums, title.
    by rewrite !step_keeps_static_keys by done.
Qed.

(** X13: in every state the server reaches, the answer grid is the
    definition's grid and the live grid has its length: no message makes
    the live grid longer or shorter. *)
Theorem live_grid_keeps_answer_length (jsonData : PuzzleDef) (st : Server) :
  reachable jsonData st →
  def_grid jsonData = Some (answerGrid_of (store st)) ∧
  length (grid_of (store st)) = length (answerGrid_of (store st)).
Proof.
  intros Hreach.
  pose proof (reachable_static _ _ Hreach)
    as (rows & cols & grid & across & down & nums & title & -> & Hans & _).
  apply reachable_coherent in Hreach as (grid' & [= <-] & [(g & Hg & Hlen) _ _ _]).
  unfold answerGrid_of, grid_of. by rewrite Hans, Hg.
Qed.

(** X14: a "manual" update whose position [p] fits 64 bits and lies in
    [-N, N), [N] the length of the live grid, changes one cell of the live
    grid and nothing else in the store: cell [p], or cell [N + p] when [p]
    is negative (LSET counts from the tail); every other cell, black cells
    included in what can be overwritten, and every other key stay as they
    were, and the message is relayed to the other sessions. *)
Theorem manual_update_changes_one_cell (jsonData : PuzzleDef) (st : Server)
    (sid raw : string) (req : gmap string pyval) (p : Z) (v : string) :
  reachable jsonData st →
  json_loads raw = Some req →
  req !! "method" = Some (PyStr "manual") →
  req !! "position" = Some (PyInt p) →
  req !! "value" = Some (PyStr v) →
  - Z.of_nat (length (grid_of (store st))) ≤ p < Z.of_nat (length (grid_of (store st))) →
  int64 p = true →
  let o := step st (ClientGridUpdate sid raw) in
  let cell := if p <? 0 then p + Z.of_nat (length (grid_of (store st))) else p in
  raised o = None ∧
  grid_of (store (after o)) = <[Z.to_nat cell := v]> (grid_of (store st)) ∧
  (∀ k, k ≠ "grid" → store (after o) !! k = store st !! k) ∧
  (∀ c, c ∈ clients st → c ≠ sid →
        received c (delivered o) = [("serverGridUpdate", raw)]).
Proof.
  intros Hreach Hreq Hm Hp Hv.
  apply reachable_coherent in Hreach as (grid & Hgrid & [(g & Hg & Hlen) _ _ Hnd]).
  unfold grid_of at 1 2 3. rewrite Hg. intros Hrange H64.
  simpl. unfold run_handler.
  rewrite (handle_UpdateGrid_manual _ _ _ _ _ _ Hreq Hm Hp Hv).
  rewrite (lset_int _ _ _ _ _ Hg), H64. cbv zeta.
  assert ((0 <=? (if p <? 0 then p + Z.of_nat (length g) else p))
          && ((if p <? 0 then p + Z.of_nat (length g) else p)
              <? Z.of_nat (length g)) = true) as ->.
  { destruct (Z.ltb_spec p 0); lia. }
  simpl. split_and!; [done| | |].
  - unfold grid_of. by rewrite lookup_insert_eq, Hg.
  - intros k Hk. by rewrite lookup_insert_ne.
  - intros c Hc Hne. rewrite relayed_to_others by done. by rewrite decide_True.
Qed.
End Sessions.

(** ** The '/crossword' route and [displayBoard] *)

Section Bootstrap.
Context `{JsonCodec} `{IntParser}.

Lemma decode_ints_all (l : list string) (zs : list Z) (db : gmap string rvalue) :
  Forall2 (λ b z, py_int b = Some z) l zs →
  decode_ints l db = (db, Returned zs).
Proof.
  induction 1 as [|b z l zs Hb _ IH]; [done|].
  simpl. unfold bindR, decode_int. rewrite Hb. unfold retR at 1. by rewrite IH.
Qed.

Lemma decode_ints_py_str (zs : list Z) (db : gmap string rvalue) :
  decode_ints (py_str <$> zs) db = (db, Returned zs).
Proof.
  apply decode_ints_all. induction zs; constructor; [apply py_int_str|done].
Qed.

Lemma decode_ints_reads_only (l : list string) (db : gmap string rvalue) :
  (decode_ints l db).1 = db.
Proof.
  induction l as [|b l IH]; [done|].
  simpl. unfold bindR, decode_int. destruct (py_int b); [|done].
  unfold retR at 1. destruct (decode_ints l db) as [db' [zs|e]]; simpl in *; by subst.
Qed.

Lemma bindR_returned {A B} (m : R A) (k : A → R B) (db db' : gmap string rvalue) (a : A) :
  m db = (db', Returned a) → bindR m k db = k a db'.
Proof. unfold bindR. by intros ->. Qed.

Lemma redis_lrange_list (name : string) (l : list string) (db : gmap string rvalue) :
  db !! name = Some (RList l) →
  redis (Redis.lrange_all name) db = (db, Returned l).
Proof. unfold redis, Redis.lrange_all. by intros ->. Qed.

Lemma redis_get_string (name s : string) (db : gmap string rvalue) :
  db !! name = Some (RString s) →
  redis (Redis.get name) db = (db, Returned (Some s)).
Proof. unfold redis, Redis.get. by intros ->. Qed.

Lemma decode_int_py_str (z : Z) (db : gmap string rvalue) :
  decode_int (py_str z) db = (db, Returned z).
Proof. unfold decode_int. by rewrite py_int_str. Qed.

(** The route on a database that holds what a load writes: all that can
    still go wrong is the reading of the reveal list. *)
Lemma handle_Crossword_run (db : gmap string rvalue) (rows cols : Z)
    (answers across down live revealed : list string) (gridnums : list Z)
    (title : string) :
  db !! "answerGrid" = Some (RList answers) →
  db !! "cluesAcross" = Some (RList across) →
  db !! "cluesDown" = Some (RList down) →
  db !! "gridNumbers" = Some (RList (py_str <$> gridnums)) →
  db !! "title" = Some (RString title) →
  db !! "rows" = Some (RString (py_str rows)) →
  db !! "cols" = Some (RString (py_str cols)) →
  db !! "grid" = Some (RList live) →
  db !! "revealedGrid" = Some (RList revealed) →
  handle_Crossword db =
    match decode_ints revealed db with
    | (db', Returned zs) =>
        (db', Returned {| out_rows := rows; out_cols := cols;
                          out_across := across; out_down := down;
                          out_grid := live;
                          out_gridnums := gridnums;
                          out_answerGrid := answers;
                          out_title := title;
                          out_revealedGrid := zs |})
    | (db', Raised e) => (db', Raised e)
    end.
Proof.
  intros Ha Hac Hd Hn Ht Hr Hc Hg Hrv.
  unfold handle_Crossword.
  repeat (erewrite bindR_returned;
          [|first [by apply redis_lrange_list | by apply redis_get_string
                  | apply decode_int_py_str | apply decode_ints_py_str
                  | reflexivity]]).
  unfold bindR. by destruct (decode_ints revealed db) as [db' [zs|e]].
Qed.

(** X15: in every state the server reaches whose reveal list holds only
    integer texts, the '/crossword' route returns the dimensions, clues,
    clue numbers, answer grid and title of the definition that was
    loaded, the live grid as it stands and the reveal list as integers,
    and leaves the store as it is. *)
Theorem bootstrap_serves_current_state (rows cols : Z) (grid across down : list string)
    (gridnums : list Z) (title : string) (st : Server) (zs : list Z) :
  reachable
    {| def_size := Some {| size_rows := Some rows; size_cols := Some cols |};
       def_grid := Some grid;
       def_clues := Some {| clues_across := Some across; clues_down := Some down |};
       def_gridnums := Some gridnums;
       def_title := Some title |} st →
  Forall2 (λ b z, py_int b = Some z) (revealedGrid_of (store st)) zs →
  handle_Crossword (store st) =
    (store st,
     Returned {| out_rows := rows; out_cols := cols;
                 out_across := across; out_down := down;
                 out_grid := grid_of (store st);
                 out_gridnums := gridnums;
                 out_answerGrid := grid;
                 out_title := title;
                 out_revealedGrid := zs |}).
Proof.
  intros Hreach Hzs.
  pose proof (reachable_static _ _ Hreach)
    as (rows' & cols' & grid' & across' & down' & nums' & title' & Heq
        & Ha & Hac & Hd & Hn & Ht & Hr & Hc).
  simplify_eq.
  apply reachable_coherent in Hreach as (g0 & _ & [(g & Hg & _) (rv & Hrv) _ _]).
  unfold revealedGrid_of, grid_of in *. rewrite Hrv in Hzs. rewrite Hg.
  rewrite (handle_Crossword_run _ _ _ _ _ _ _ _ _ _ Ha Hac Hd Hn Ht Hr Hc Hg Hrv).
  by rewrite (decode_ints_all _ _ _ Hzs).
Qed.

Lemma bindR_reads_only {A B} (m : R A) (k : A → R B) :
  (∀ db, (m db).1 = db) → (∀ a db, (k a db).1 = db) →
  ∀ db, (bindR m k db).1 = db.
Proof.
  intros Hm Hk db. unfold bindR. specialize (Hm db).
  destruct (m db) as [db' [a|e]]; simpl in *; subst; first [apply Hk|done].
Qed.

Lemma lrange_reads_only (name : string) (db : gmap string rvalue) :
  (redis (Redis.lrange_all name) db).1 = db.
Proof. unfold redis, Redis.lrange_all. by destruct (db !! name) as [[]|]. Qed.

Lemma get_reads_only (name : string) (db : gmap string rvalue) :
  (redis (Redis.get name) db).1 = db.
Proof. unfold redis, Redis.get. by destruct (db !! name) as [[]|]. Qed.

Lemma decode_reads_only (v : option string) (db : gmap string rvalue) :
  (decode v db).1 = db.
Proof. by destruct v. Qed.

Lemma decode_int_reads_only (x : string) (db : gmap string rvalue) :
  (decode_int x db).1 = db.
Proof. unfold decode_int. by destruct (py_int x). Qed.

(** X16: the '/crossword' route never writes: whatever the database holds
    and whether the route returns or raises, the database after it is the
    database before it. *)
Theorem bootstrap_reads_only (db : gmap string rvalue) :
  (handle_Crossword db).1 = db.
Proof.
  revert db. unfold handle_Crossword.
  repeat (apply bindR_reads_only;
          [intros; first [apply lrange_reads_only | apply get_reads_only
                         | apply decode_reads_only | apply decode_int_reads_only
                         | apply decode_ints_reads_only]
          |intros ?]).
  done.
Qed.


(** X18: on a database without "cols", as before any load, the
    '/crossword' route raises [AttributeError] (there is nothing to
    decode), provided the four lists it reads first are lists or
    absent. *)
Theorem bootstrap_before_load (db : gmap string rvalue) :
  (∀ k, k ∈ ["cluesDown"; "cluesAcross"; "grid"; "answerGrid"] →
        db !! k = None ∨ ∃ l, db !! k = Some (RList l)) →
  db !! "cols" = None →
  handle_Crossword db = (db, Raised AttributeError).
Proof.
  intros Hlists Hcols.
  assert (∀ k, k ∈ ["cluesDown"; "cluesAcross"; "grid"; "answerGrid"] →
               ∃ l, redis (Redis.lrange_all k) db = (db, Returned l)) as Hread.
  { intros k Hk. unfold redis, Redis.lrange_all.
    destruct (Hlists k Hk) as [->|[l ->]]; eauto. }
  unfold handle_Crossword.
  destruct (Hread "cluesDown") as [l1 H1]; [repeat constructor|].
  destruct (Hread "cluesAcross") as [l2 H2]; [repeat constructor|].
  destruct (Hread "grid") as [l3 H3]; [repeat constructor|].
  destruct (Hread "answerGrid") as [l4 H4]; [repeat constructor|].
  rewrite (bindR_returned _ _ _ _ _ H1), (bindR_returned _ _ _ _ _ H2),
    (bindR_returned _ _ _ _ _ H3), (bindR_returned _ _ _ _ _ H4).
  unfold bindR, redis, Redis.get. by rewrite Hcols.
Qed.

(** X19: in every state the server reaches, [displayBoard] raises at its
    first command, GET on the list "grid" (WRONGTYPE), and prints
    nothing. *)
Theorem displayBoard_cannot_print (jsonData : PuzzleDef) (st : Server) :
  reachable jsonData st →
  displayBoard (store st) = (store st, Raised (FromRedis (ResponseError WrongType))).
Proof.
  intros (g0 & _ & [(g & Hg & _) _ _ _])%reachable_coherent.
  unfold displayBoard, bindR, redis, Redis.get. by rewrite Hg.
Qed.
End Bootstrap.

(** ** Loading a symmetric grid *)

(** X20: when the '.' cells of the definition's grid sit symmetrically
    (cell [i] is '.' exactly when cell [N - 1 - i] is, as in a grid with
    180-degree symmetry), the mirrored live grid has its '.' cells where
    the answer grid has them, and a blank everywhere else. *)
Theorem symmetric_grid_loads_in_place (jsonData : PuzzleDef)
    (db db' : gmap string rvalue) :
  initializeRedisFromJson jsonData db = (db', Ok tt) →
  let answers := answerGrid_of db' in
  let live := grid_of db' in
  (∀ i, (i < length answers)%nat →
        answers !! i = Some "." ↔ answers !! (length answers - S i)%nat = Some ".") →
  ∀ i, (i < length answers)%nat →
       (live !! i = Some "." ↔ answers !! i = Some ".") ∧
       (live !! i = Some "." ∨ live !! i = Some " ").
Proof.
  intros Hload answers live Hsym i Hi.
  destruct (load_mirror _ _ _ Hload) as (_ & _ & Hmirror).
  fold answers live in Hmirror. rewrite (Hmirror i Hi), (Hsym i Hi).
  destruct (lookup_lt_is_Some_2 answers (length answers - S i)) as [c Hc]; [lia|].
  rewrite Hc. simpl.
  destruct (String.eqb_spec c ".") as [->|Hne].
  - split; [done|by left].
  - split; [|by right]. split; intros [=]; congruence.
Qed.

(** ** The further properties on examples *)

Lemma load_replaces_database_witness :
  let db' := (initializeRedisFromJson puzzle_2x2 (store two_clients)).1 in
  initializeRedisFromJson puzzle_2x2 ∅ = (db', Ok tt) ∧
  dom db' = list_to_set ["stateNumber"; "cols"; "rows"; "answerGrid"; "cluesAcross";
                         "cluesDown"; "gridNumbers"; "title"; "revealedGrid"; "grid"] ∧
  presence_of db' = [].
Proof.
  apply (load_replaces_database puzzle_2x2 (store two_clients)). reflexivity.
Defined.


Lemma live_grid_mirrors_answers_witness :
  let db' := (initializeRedisFromJson puzzle_1x2 ∅).1 in
  let answers := answerGrid_of db' in
  let live := grid_of db' in
  def_grid puzzle_1x2 = Some answers ∧
  length live = length answers ∧
  ∀ i, (i < length answers)%nat →
       live !! i = (λ c, if String.eqb c "." then "." else " ")
                     <$> answers !! (length answers - S i)%nat.
Proof. apply (live_grid_mirrors_answers puzzle_1x2 ∅). reflexivity. Defined.

Lemma symmetric_grid_witness :
  let db' := (initializeRedisFromJson puzzle_symmetric ∅).1 in
  let answers := answerGrid_of db' in
  let live := grid_of db' in
  answers = ["."; "A"; "."] ∧
  ∀ i, (i < length answers)%nat →
       (live !! i = Some "." ↔ answers !! i = Some ".") ∧
       (live !! i = Some "." ∨ live !! i = Some " ").
Proof.
  split; [reflexivity|].
  apply (symmetric_grid_loads_in_place puzzle_symmetric ∅).
  - reflexivity.
  - intros [|[|[|i]]] Hi; vm_compute; [tauto|tauto|tauto|].
    vm_compute in Hi. lia.
Defined.

Lemma static_fields_witness :
  store two_clients !! "answerGrid"
  = (initializeRedisFromJson puzzle_2x2 ∅).1 !! "answerGrid".
Proof.
  apply (@static_fields_never_change example_codec puzzle_2x2 two_clients "answerGrid").
  - apply two_clients_reachable.
  - reflexivity.
Defined.


Lemma sentinel_witness :
  ∃ revealed, revealedGrid_of (store two_clients) = revealed ++ ["-1"].
Proof.
  apply (@reveal_list_ends_with_sentinel example_codec puzzle_2x2 two_clients).
  apply two_clients_reachable.
Defined.

Lemma connect_then_disconnect_witness :
  after (@step example_codec (after (@step example_codec two_clients (Connect "id3")))
           (Disconnect "id3")) = two_clients.
Proof.
  apply (@connect_then_disconnect_restores example_codec puzzle_2x2 two_clients "id3").
  - apply two_clients_reachable.
  - apply (bool_decide_unpack _). vm_compute. exact I.
Defined.

Lemma one_client_reachable : @reachable example_codec puzzle_2x2 one_client.
Proof. apply (@example_reachable example_codec); reflexivity. Qed.

Lemma last_session_witness :
  let o := @step example_codec one_client (Disconnect "id1") in
  raised o = None ∧
  delivered o = [] ∧
  store (after o) !! "userHash" = None ∧
  clients (after o) = [].
Proof.
  apply (@last_session_leaves_quietly example_codec puzzle_2x2 one_client "id1").
  - apply one_client_reachable.
  - reflexivity.
Defined.


Lemma live_grid_length_witness :
  def_grid puzzle_2x2 = Some (answerGrid_of (store two_clients)) ∧
  length (grid_of (store two_clients)) = length (answerGrid_of (store two_clients)).
Proof.
  apply (@live_grid_keeps_answer_length example_codec puzzle_2x2 two_clients).
  apply two_clients_reachable.
Defined.

Lemma one_cell_witness :
  let o := @step example_codec two_clients (ClientGridUpdate "id1" msg_manual_tail) in
  let cell :=
    if -1 <? 0 then -1 + Z.of_nat (length (grid_of (store two_clients))) else -1 in
  raised o = None ∧
  grid_of (store (after o)) = <[Z.to_nat cell := "Z"]> (grid_of (store two_clients)) ∧
  (∀ k, k ≠ "grid" → store (after o) !! k = store two_clients !! k) ∧
  (∀ c, c ∈ clients two_clients → c ≠ "id1" →
        received c (delivered o) = [("serverGridUpdate", msg_manual_tail)]).
Proof.
  apply (@manual_update_changes_one_cell example_codec puzzle_2x2 two_clients
           "id1" msg_manual_tail (grid_request "manual" (-1) "Z") (-1) "Z").
  - apply two_clients_reachable.
  - reflexivity.
  - reflexivity.
  - reflexivity.
  - reflexivity.
  - vm_compute. split; [discriminate|reflexivity].
  - reflexivity.
Defined.

Lemma bootstrap_witness :
  @handle_Crossword example_int_parser (store two_clients) =
    (store two_clients,
     Returned {| out_rows := 2; out_cols := 2;
                 out_across := ["1. ab"; "3. cd"]; out_down := ["1. ac"; "2. bd"];
                 out_grid := grid_of (store two_clients);
                 out_gridnums := [1; 2; 3; 0];
                 out_answerGrid := ["A"; "B"; "C"; "D"];
                 out_title := "tiny";
                 out_revealedGrid := [-1] |}).
Proof.
  apply (@bootstrap_serves_current_state example_codec example_int_parser
           2 2 ["A"; "B"; "C"; "D"] ["1. ab"; "3. cd"] ["1. ac"; "2. bd"]
           [1; 2; 3; 0] "tiny" two_clients [-1]).
  - apply two_clients_reachable.
  - vm_compute. repeat constructor.
Defined.



Lemma bootstrap_before_load_witness :
  @handle_Crossword example_int_parser ∅ = (∅, Raised AttributeError).
Proof.
  apply (@bootstrap_before_load example_int_parser ∅).
  - intros k _. left. reflexivity.
  - reflexivity.
Defined.

Lemma displayBoard_witness :
  displayBoard (store two_clients)
  = (store two_clients, Raised (FromRedis (ResponseError WrongType))).
Proof.
  apply (@displayBoard_cannot_print example_codec puzzle_2x2 two_clients).
  apply two_clients_reachable.
Defined.
